(** * RTPProxy: a shallow embedding of the RTP/RTCP relay

    The development follows [RTPProxy] (the class proxying unencrypted RTP
    and RTCP between two UDP endpoints): the byte-level accessors of
    [Buffer] it calls, the datagram sockets it owns, the RTP rewrite
    ([rtpMessage]), the RTCP compound walk ([processRTCPMessage]) with its
    two users ([rtcpMessage], [rtcpReply]), teardown ([destroy]) and the two
    port allocators ([createSocket], [createSocketPair]).

    Conventions.  A [Buffer] is a list of byte values held in [Z]; offsets
    and lengths are [nat].  JavaScript numbers that the code treats as
    integers are [Z]; the 32-bit wrap-around of the bitwise operators is
    written out ([toInt32]).  A method that can throw returns a [Result];
    methods that mutate [this] take the instance and return the new one. *)

From Stdlib Require Import ZArith Lia.
From stdpp Require Import base numbers list strings.

Set Default Proof Using "Type".

(** ** Outcomes *)

Inductive Error :=
  | ERR_OUT_OF_RANGE
  | ERR_BUFFER_OUT_OF_BOUNDS
  | ERR_SOCKET_BAD_PORT
  | ERR_SOCKET_DGRAM_NOT_RUNNING
  | TypeError.

(** [Pending] is the outcome of a loop of the model that was cut off by its
    step bound: for the RTCP walk it is shown never to occur, for the port
    allocators it is a promise that has not been resolved yet. *)
Inductive Result (A : Type) :=
  | Ok (a : A)
  | Throw (e : Error)
  | Pending.
Arguments Ok {A} a.
Arguments Throw {A} e.
Arguments Pending {A}.

#[global] Instance Result_ret : MRet Result := λ A a, Ok a.
#[global] Instance Result_bind : MBind Result := λ A B f m,
  match m with
  | Ok a => f a
  | Throw e => Throw e
  | Pending => Pending
  end.

Abbreviation Buffer := (list Z).

Definition is_byte (b : Z) : Prop := (0 ≤ b < 256)%Z.
Definition uint32 (v : Z) : Prop := (0 ≤ v < 2 ^ 32)%Z.

(** ** JavaScript integer coercions used by the bitwise operators *)

Definition toInt32 (v : Z) : Z := ((v + 2 ^ 31) `mod` 2 ^ 32 - 2 ^ 31)%Z.

(** [ToInt32] of a nullable number: [null] is coerced to [+0]. *)
Definition toInt32_nullable (v : option Z) : Z :=
  match v with
  | Some n => toInt32 n
  | None => 0%Z
  end.

(** [a & b] and [a | b]; the right operand of [|] in [rtpMessage] is the
    nullable field [outgoingPayloadType]. *)
Definition js_and (a b : Z) : Z := toInt32 (Z.land (toInt32 a) (toInt32 b)).
Definition js_or (a : Z) (b : option Z) : Z :=
  toInt32 (Z.lor (toInt32 a) (toInt32_nullable b)).

(** ** The [Buffer] accessors *)

Module Buf.

(** [boundsError]: the buffer is shorter than the accessed width, or the
    offset is outside it. *)
Definition boundsError {A} (buf : Buffer) (width : nat) : Result A :=
  if (length buf <? width)%nat then Throw ERR_BUFFER_OUT_OF_BOUNDS
  else Throw ERR_OUT_OF_RANGE.

Definition readUInt8 (buf : Buffer) (offset : nat) : Result Z :=
  match buf !! offset with
  | Some v => Ok v
  | None => boundsError buf 1
  end.

Definition readUInt16BE (buf : Buffer) (offset : nat) : Result Z :=
  match buf !! offset, buf !! (offset + 1)%nat with
  | Some first, Some last => Ok (first * 2 ^ 8 + last)%Z
  | _, _ => boundsError buf 2
  end.

Definition readUInt32BE (buf : Buffer) (offset : nat) : Result Z :=
  match buf !! offset, buf !! (offset + 1)%nat,
        buf !! (offset + 2)%nat, buf !! (offset + 3)%nat with
  | Some first, Some b1, Some b2, Some last =>
      Ok (first * 2 ^ 24 + b1 * 2 ^ 16 + b2 * 2 ^ 8 + last)%Z
  | _, _, _, _ => boundsError buf 4
  end.

(** The value is range-checked before the offset. *)
Definition writeUInt8 (value : Z) (offset : nat) (buf : Buffer) : Result Buffer :=
  if ((255 <? value) || (value <? 0))%Z then Throw ERR_OUT_OF_RANGE
  else match buf !! offset with
       | Some _ => Ok (<[offset := value]> buf)
       | None => boundsError buf 1
       end.

(** The four bytes of [value], most significant first. *)
Definition be32 (value : Z) : list Z :=
  [ (value ≫ 24) `mod` 256; (value ≫ 16) `mod` 256;
    (value ≫ 8) `mod` 256; value `mod` 256 ]%Z.

Definition writeUInt32BE (value : Z) (offset : nat) (buf : Buffer) : Result Buffer :=
  if ((4294967295 <? value) || (value <? 0))%Z then Throw ERR_OUT_OF_RANGE
  else match buf !! offset, buf !! (offset + 3)%nat with
       | Some _, Some _ =>
           Ok (<[offset := (value ≫ 24) `mod` 256]>
               (<[(offset + 1)%nat := (value ≫ 16) `mod` 256]>
                (<[(offset + 2)%nat := (value ≫ 8) `mod` 256]>
                 (<[(offset + 3)%nat := value `mod` 256]> buf))))%Z
       | _, _ => boundsError buf 4
       end.

(** [buf.slice(start, end)] for [0 <= start <= end]; the end is clamped to
    the length.  The result is used as a value: the writes the callers do
    through it fall inside the sub-packet the walk has already measured. *)
Definition slice (buf : Buffer) (start stop : nat) : Buffer :=
  take (stop - start) (drop start buf).

Definition concat (bufs : list Buffer) : Buffer := mjoin bufs.

End Buf.

(** ** Datagram sockets *)

(** [sock_port] is the local port once the socket is bound; [sock_running]
    says whether the socket still has its handle. *)
Record Socket := mkSocket {
  sock_id : nat;
  sock_port : option Z;
  sock_running : bool
}.

(** What the instance did to the datagram layer, oldest first. *)
Inductive Event :=
  | EvCreate (sock : nat)
  | EvBind (sock : nat) (port : Z)
  | EvClose (sock : nat)
  | EvSend (sock : nat) (msg : Buffer) (port : Z) (address : string).

#[global] Instance Event_eq_dec : EqDecision Event.
Proof. solve_decision. Defined.

Module Dgram.

(** [socket.close()]: a socket whose handle is gone is not running and
    refuses the call. *)
Definition close (s : Socket) : Result (Socket * Event) :=
  if sock_running s
  then Ok (mkSocket (sock_id s) (sock_port s) false, EvClose (sock_id s))
  else Throw ERR_SOCKET_DGRAM_NOT_RUNNING.

(** [socket.send(msg, port, address)]: the port is validated, then the
    socket must be running. *)
Definition send (s : Socket) (msg : Buffer) (port : Z) (address : string)
  : Result Event :=
  if ((port <? 1) || (65535 <? port))%Z then Throw ERR_SOCKET_BAD_PORT
  else if sock_running s then Ok (EvSend (sock_id s) msg port address)
  else Throw ERR_SOCKET_DGRAM_NOT_RUNNING.

(** [socket.bind(port)] does not validate the port and does not throw at
    the call: the number is cut to 16 bits on its way to the system, so
    65536 arrives as 0, and 0 asks the system to choose a port.  [bind] is
    the port that reaches the system; whether it can be taken is known
    later, from the [listening] or [error] event. *)
Definition bind (port : Z) : Z := port mod 65536.

End Dgram.

(** ** The instance *)

Record RTPProxy := mkRTPProxy {
  startingPort : Z;
  outgoingAddress : string;
  outgoingPort : Z;
  incomingPayloadType : Z;
  outgoingSSRC : Z;
  incomingSSRC : option Z;
  outgoingPayloadType : option Z;
  disabled : bool;
  incomingRTPSocket : option Socket;
  incomingRTCPSocket : option Socket;
  outgoingSocket : option Socket;
  serverAddress : option string;
  serverRTPPort : option Z;
  serverRTCPPort : option Z;
  (** not a field of the class: the log of datagram-layer calls *)
  events : list Event
}.

Record RTPProxyOptions := mkOptions {
  opt_disabled : bool;
  opt_outgoingAddress : string;
  opt_outgoingPort : Z;
  opt_outgoingSSRC : Z
}.

Definition constructor (options : RTPProxyOptions) : RTPProxy :=
  {| startingPort := 10000;
     outgoingAddress := opt_outgoingAddress options;
     outgoingPort := opt_outgoingPort options;
     incomingPayloadType := 0;
     outgoingSSRC := opt_outgoingSSRC options;
     disabled := opt_disabled options;
     incomingSSRC := None;
     outgoingPayloadType := None;
     incomingRTPSocket := None;
     incomingRTCPSocket := None;
     outgoingSocket := None;
     serverAddress := None;
     serverRTPPort := None;
     serverRTCPPort := None;
     events := [] |}.

Definition set_startingPort (p : Z) (st : RTPProxy) : RTPProxy :=
  mkRTPProxy p (outgoingAddress st) (outgoingPort st)
    (incomingPayloadType st) (outgoingSSRC st) (incomingSSRC st)
    (outgoingPayloadType st) (disabled st) (incomingRTPSocket st)
    (incomingRTCPSocket st) (outgoingSocket st) (serverAddress st)
    (serverRTPPort st) (serverRTCPPort st) (events st).

Definition set_incomingSSRC (v : option Z) (st : RTPProxy) : RTPProxy :=
  mkRTPProxy (startingPort st) (outgoingAddress st) (outgoingPort st)
    (incomingPayloadType st) (outgoingSSRC st) v
    (outgoingPayloadType st) (disabled st) (incomingRTPSocket st)
    (incomingRTCPSocket st) (outgoingSocket st) (serverAddress st)
    (serverRTPPort st) (serverRTCPPort st) (events st).

Definition setIncomingPayloadType (pt : Z) (st : RTPProxy) : RTPProxy :=
  mkRTPProxy (startingPort st) (outgoingAddress st) (outgoingPort st)
    pt (outgoingSSRC st) (incomingSSRC st)
    (outgoingPayloadType st) (disabled st) (incomingRTPSocket st)
    (incomingRTCPSocket st) (outgoingSocket st) (serverAddress st)
    (serverRTPPort st) (serverRTCPPort st) (events st).

Definition setOutgoingPayloadType (pt : Z) (st : RTPProxy) : RTPProxy :=
  mkRTPProxy (startingPort st) (outgoingAddress st) (outgoingPort st)
    (incomingPayloadType st) (outgoingSSRC st) (incomingSSRC st)
    (Some pt) (disabled st) (incomingRTPSocket st)
    (incomingRTCPSocket st) (outgoingSocket st) (serverAddress st)
    (serverRTPPort st) (serverRTCPPort st) (events st).

Definition set_sockets (rtp rtcp out : option Socket) (st : RTPProxy) : RTPProxy :=
  mkRTPProxy (startingPort st) (outgoingAddress st) (outgoingPort st)
    (incomingPayloadType st) (outgoingSSRC st) (incomingSSRC st)
    (outgoingPayloadType st) (disabled st) rtp rtcp out (serverAddress st)
    (serverRTPPort st) (serverRTCPPort st) (events st).

Definition log (ev : list Event) (st : RTPProxy) : RTPProxy :=
  mkRTPProxy (startingPort st) (outgoingAddress st) (outgoingPort st)
    (incomingPayloadType st) (outgoingSSRC st) (incomingSSRC st)
    (outgoingPayloadType st) (disabled st) (incomingRTPSocket st)
    (incomingRTCPSocket st) (outgoingSocket st) (serverAddress st)
    (serverRTPPort st) (serverRTCPPort st) (events st ++ ev).

(** ** Forwarding *)

(** [sendOut]: dropped while the peer address or port is falsy (the empty
    string, zero); otherwise one [send] on the outgoing socket, which is a
    [TypeError] while that field is still unset. *)
Definition sendOut (msg : Buffer) (st : RTPProxy) : Result RTPProxy :=
  if (String.eqb (outgoingAddress st) "" || (outgoingPort st =? 0)%Z)
  then Ok st
  else match outgoingSocket st with
       | None => Throw TypeError
       | Some s =>
           ev ← Dgram.send s msg (outgoingPort st) (outgoingAddress st);
           Ok (log [ev] st)
       end.

(** ** The RTP rewrite *)

Definition rtpMessage (msg : Buffer) (st : RTPProxy) : Result RTPProxy :=
  if (length msg <? 12)%nat then sendOut msg st
  else
    mpt ← Buf.readUInt8 msg 1;
    let pt := js_and mpt 0x7F in
    msg ← (if (pt =? incomingPayloadType st)%Z
           then Buf.writeUInt8 (js_or (js_and mpt 0x80) (outgoingPayloadType st)) 1 msg
           else Ok msg);
    st ← match incomingSSRC st with
         | None => ssrc ← Buf.readUInt32BE msg 4; Ok (set_incomingSSRC (Some ssrc) st)
         | Some _ => Ok st
         end;
    msg ← Buf.writeUInt32BE (outgoingSSRC st) 8 msg;
    sendOut msg st.

(** ** The RTCP compound walk *)

(** A transform may change [this] (the forward path learns the SSRC) and
    returns the packet to keep; [None] stands for a falsy result.  A
    [Buffer] object is truthy whatever its length. *)
Definition Transform : Type :=
  Z → Buffer → RTPProxy → Result (option Buffer * RTPProxy).

Fixpoint processRTCPLoop (fuel : nat) (transform : Transform) (msg : Buffer)
    (offset : nat) (rtcpPackets : list Buffer) (st : RTPProxy)
  : Result (list Buffer * RTPProxy) :=
  match fuel with
  | O => Pending
  | S fuel =>
      if (offset + 4 <=? length msg)%nat then
        pt ← Buf.readUInt8 msg (offset + 1);
        words ← Buf.readUInt16BE msg (offset + 2);
        let len := Z.to_nat (words * 4) in
        if (length msg <? offset + 4 + len)%nat then Ok (rtcpPackets, st)
        else
          let packet := Buf.slice msg offset (offset + 4 + len) in
          r ← transform pt packet st;
          let rtcpPackets :=
            match r.1 with
            | Some packet => rtcpPackets ++ [packet]
            | None => rtcpPackets
            end in
          processRTCPLoop fuel transform msg (offset + 4 + len) rtcpPackets r.2
      else Ok (rtcpPackets, st)
  end.

Definition processRTCPMessage (msg : Buffer) (transform : Transform)
    (st : RTPProxy) : Result (option Buffer * RTPProxy) :=
  r ← processRTCPLoop (S (length msg)) transform msg 0 [] st;
  if (0 <? length r.1)%nat then Ok (Some (Buf.concat r.1), r.2)
  else Ok (None, r.2).

(** ** The forward RTCP path *)

Definition rtcpMessage_transform : Transform := λ pt packet st,
  if negb (pt =? 200)%Z || (length packet <? 8)%nat then Ok (Some packet, st)
  else
    st ← match incomingSSRC st with
         | None => ssrc ← Buf.readUInt32BE packet 4; Ok (set_incomingSSRC (Some ssrc) st)
         | Some _ => Ok st
         end;
    packet ← Buf.writeUInt32BE (outgoingSSRC st) 4 packet;
    Ok (Some packet, st).

Definition rtcpMessage (msg : Buffer) (st : RTPProxy) : Result RTPProxy :=
  r ← processRTCPMessage msg rtcpMessage_transform st;
  match r.1 with
  | Some processed => sendOut processed r.2
  | None => Ok r.2
  end.

(** ** The reply RTCP path *)

Section Reply.

(** [writeUInt32BE] is declared for a number.  [rtcpReply] hands it
    [this.incomingSSRC!], which is [null] until an SSRC has been learned;
    what the accessor does with a value that is not a number is not fixed
    by this class and is taken as [writeNonNumber]. *)
Variable writeNonNumber : nat → Buffer → Result Buffer.

Definition rtcpReply_transform : Transform := λ pt packet st,
  if negb (pt =? 201)%Z || (length packet <? 12)%nat then Ok (Some packet, st)
  else
    (* Assume source 1 is the one we want to edit. *)
    packet ← match incomingSSRC st with
             | Some ssrc => Buf.writeUInt32BE ssrc 8 packet
             | None => writeNonNumber 8 packet
             end;
    Ok (Some packet, st).

Definition rtcpReply (msg : Buffer) (st : RTPProxy) : Result RTPProxy :=
  r ← processRTCPMessage msg rtcpReply_transform st;
  match r.1 with
  | Some processed => sendOut processed r.2
  | None => Ok r.2
  end.

End Reply.

(** The accessor the class runs with: [writeUInt32BE] of node:buffer starts
    with [value = +value], which turns [null] into [0] before the range
    check. *)
Definition node_writeNonNumber (offset : nat) (buf : Buffer) : Result Buffer :=
  Buf.writeUInt32BE 0 offset buf.

(** ** Teardown *)

Definition closeIfSet (s : option Socket) : Result (option Socket * list Event) :=
  match s with
  | None => Ok (None, [])
  | Some s => r ← Dgram.close s; Ok (Some r.1, [r.2])
  end.

(** A [Throw] abandons the call; the sockets closed before it are not
    reported. *)
Definition destroy (st : RTPProxy) : Result RTPProxy :=
  rtp ← closeIfSet (incomingRTPSocket st);
  rtcp ← closeIfSet (incomingRTCPSocket st);
  out ← closeIfSet (outgoingSocket st);
  Ok (log (rtp.2 ++ rtcp.2 ++ out.2) (set_sockets rtp.1 rtcp.1 out.1 st)).

(** ** Port allocation *)

(** What one call of [recheck] does. *)
Inductive Verdict := Wait | Resolve | Retry.

#[global] Instance Verdict_eq_dec : EqDecision Verdict.
Proof. solve_decision. Defined.

(** [state.socketN]: 0 no event yet, 1 the bind failed, 2 it is listening. *)
Definition recheck (state : Z * Z) : Verdict :=
  if ((state.1 =? 0) || (state.2 =? 0))%Z then Wait
  else if ((state.1 =? 2) && (state.2 =? 2))%Z then Resolve
  else Retry.

(** The [error] and [listening] handlers of the pair: record the outcome in
    the slot of the socket the event belongs to. *)
Definition onEvent (socket1 : bool) (listening : bool) (state : Z * Z) : Z * Z :=
  let v := if listening then 2%Z else 1%Z in
  if socket1 then (v, state.2) else (state.1, v).

(** The events of one attempt, in the order the event loop delivers them;
    [recheck] runs after each. *)
Definition attempt (socket1First ok1 ok2 : bool) : Verdict :=
  let state := (0%Z, 0%Z) in
  let state :=
    if socket1First then onEvent true ok1 state else onEvent false ok2 state in
  match recheck state with
  | Wait =>
      let state :=
        if socket1First then onEvent false ok2 state else onEvent true ok1 state in
      recheck state
  | v => v
  end.

(** Sockets are numbered by the position of their creation in the log. *)
Definition fresh (st : RTPProxy) : nat := length (events st).

Section Allocator.

(** The environment: whether the bind that socket [id] requests for a port
    succeeds; the port the system picks when asked for port 0; and, for
    the pair whose first socket is [id], whether its event comes first. *)
Variable bindOk : nat → Z → bool.
Variable ephemeral : nat → Z.
Variable socket1First : nat → bool.

Definition boundPort (id : nat) (port : Z) : Z :=
  let wire := Dgram.bind port in
  if (wire =? 0)%Z then ephemeral id else wire.

Fixpoint createSocket (fuel : nat) (st : RTPProxy) : Result (Socket * RTPProxy) :=
  match fuel with
  | O => Pending
  | S fuel =>
      let id := fresh st in
      let port := startingPort st in
      let st := log [EvCreate id] st in
      let st := log [EvBind id port] st in
      if bindOk id port then
        Ok (mkSocket id (Some (boundPort id port)) true, st)
      else
        (* bindErrorHandler *)
        let st :=
          if (startingPort st =? 65535)%Z then set_startingPort 10000 st
          else set_startingPort (startingPort st + 1) st in
        r ← Dgram.close (mkSocket id None true);
        createSocket fuel (log [r.2] st)
  end.

Fixpoint createSocketPair (fuel : nat) (st : RTPProxy)
  : Result (Socket * Socket * RTPProxy) :=
  match fuel with
  | O => Pending
  | S fuel =>
      let id1 := fresh st in
      let st := log [EvCreate id1] st in
      let id2 := fresh st in
      let st := log [EvCreate id2] st in
      let port := startingPort st in
      let st := log [EvBind id1 port] st in
      let st := log [EvBind id2 (port + 1)] st in
      let ok1 := bindOk id1 port in
      let ok2 := bindOk id2 (port + 1)%Z in
      let socket1 :=
        mkSocket id1 (if ok1 then Some (boundPort id1 port) else None) true in
      let socket2 :=
        mkSocket id2 (if ok2 then Some (boundPort id2 (port + 1)) else None) true in
      match attempt (socket1First id1) ok1 ok2 with
      | Wait => Pending
      | Resolve => Ok (socket1, socket2, st)
      | Retry =>
          let st :=
            if (startingPort st =? 65534)%Z then set_startingPort 10000 st
            else set_startingPort (startingPort st + 1) st in
          r1 ← Dgram.close socket1;
          let st := log [r1.2] st in
          r2 ← Dgram.close socket2;
          let st := log [r2.2] st in
          createSocketPair fuel st
      end
  end.

(** [setup]: the pair, then the outgoing socket.  [onBound] only attaches
    the three message handlers (none when [disabled]). *)
Definition setup (fuel : nat) (st : RTPProxy) : Result RTPProxy :=
  sockets ← createSocketPair fuel st;
  let st := set_sockets (Some sockets.1.1) (Some sockets.1.2)
                        (outgoingSocket sockets.2) sockets.2 in
  socket ← createSocket fuel st;
  Ok (set_sockets (incomingRTPSocket socket.2) (incomingRTCPSocket socket.2)
                  (Some socket.1) socket.2).

End Allocator.

(** ** Inbound traffic *)

(** The two handlers that can learn the SSRC, as [onBound] wires them: the
    incoming RTP socket to [rtpMessage], the incoming RTCP socket to
    [rtcpMessage]. *)
Inductive Inbound :=
  | OnRTP (msg : Buffer)
  | OnRTCP (msg : Buffer).

Definition handle (d : Inbound) (st : RTPProxy) : Result RTPProxy :=
  match d with
  | OnRTP msg => rtpMessage msg st
  | OnRTCP msg => rtcpMessage msg st
  end.

Fixpoint handleAll (ds : list Inbound) (st : RTPProxy) : Result RTPProxy :=
  match ds with
  | [] => Ok st
  | d :: ds => st ← handle d st; handleAll ds st
  end.

(** * The contracts the code is compared with

    The definitions below do not come from the class: they state, in the
    words of the description of the relay, what a compound packet decodes
    to and what the relay is expected to learn and to rewrite. *)

(** Total length a sub-packet header declares: four bytes of header plus
    four per word of the big-endian count at offsets 2-3. *)
Definition declaredLength (rest : Buffer) : nat :=
  match rest !! 2%nat, rest !! 3%nat with
  | Some hi, Some lo => 4 + 4 * Z.to_nat (hi * 256 + lo)
  | _, _ => 4
  end.

Definition packetType (p : Buffer) : Z := default 0%Z (p !! 1%nat).

(** The decode: peel sub-packets off the front until fewer than four bytes
    remain or the declared length overruns what is left. *)
Fixpoint subpackets_aux (fuel : nat) (rest : Buffer) : list Buffer :=
  match fuel with
  | O => []
  | S fuel =>
      if (length rest <? 4)%nat then []
      else if (length rest <? declaredLength rest)%nat then []
      else take (declaredLength rest) rest
             :: subpackets_aux fuel (drop (declaredLength rest) rest)
  end.

Definition subpackets (msg : Buffer) : list Buffer :=
  subpackets_aux (length msg) msg.

(** The bytes the decode leaves behind. *)
Definition trailing (msg : Buffer) : Buffer :=
  drop (length (mjoin (subpackets msg))) msg.

(** The transform applied to the sub-packets in order; a falsy result drops
    the sub-packet, any buffer is kept. *)
Fixpoint applyTransform (transform : Transform) (packets kept : list Buffer)
    (st : RTPProxy) : Result (list Buffer * RTPProxy) :=
  match packets with
  | [] => Ok (kept, st)
  | p :: packets =>
      r ← transform (packetType p) p st;
      applyTransform transform packets (kept ++ option_list r.1) r.2
  end.

(** Re-encode: nothing when no sub-packet was kept, else the concatenation. *)
Definition reencode (kept : list Buffer) : option Buffer :=
  match kept with
  | [] => None
  | _ => Some (mjoin kept)
  end.

(** A sub-packet whose length is the one its header declares. *)
Definition wellFormed (p : Buffer) : Prop :=
  4 ≤ length p ∧ length p = declaredLength p.

(** [patch off bytes buf]: [buf] with [bytes] written from [off] on. *)
Fixpoint patch (off : nat) (bytes : list Z) (buf : Buffer) : Buffer :=
  match bytes with
  | [] => buf
  | b :: bytes => <[off := b]> (patch (S off) bytes buf)
  end.

(** A Sender Report long enough to carry its SSRC. *)
Definition qualifyingSR (p : Buffer) : bool :=
  (packetType p =? 200)%Z && (8 <=? length p)%nat.

(** A Receiver Report long enough to carry the SSRC of its first block. *)
Definition qualifyingRR (p : Buffer) : bool :=
  (packetType p =? 201)%Z && (12 <=? length p)%nat.

(** The rewrite of one sub-packet on the forward path. *)
Definition forwardRewrite (ssrc : Z) (p : Buffer) : Buffer :=
  if qualifyingSR p then patch 4 (Buf.be32 ssrc) p else p.

(** The big-endian 32-bit value at [off], when the four bytes are there. *)
Definition word32_at (buf : Buffer) (off : nat) : option Z :=
  match Buf.readUInt32BE buf off with
  | Ok v => Some v
  | _ => None
  end.

(** What a datagram offers as incoming SSRC: an RTP packet of at least 12
    bytes its bytes 4-7; an RTCP datagram bytes 4-7 of its first qualifying
    Sender Report. *)
Definition observation (d : Inbound) : option Z :=
  match d with
  | OnRTP msg => if (12 <=? length msg)%nat then word32_at msg 4 else None
  | OnRTCP msg =>
      match filter (λ p, qualifyingSR p = true) (subpackets msg) with
      | p :: _ => word32_at p 4
      | [] => None
      end
  end.

Fixpoint firstObservation (ds : list Inbound) : option Z :=
  match ds with
  | [] => None
  | d :: ds =>
      match observation d with
      | Some v => Some v
      | None => firstObservation ds
      end
  end.

(** The state in which the message handlers run: the outgoing socket is
    bound and running, and the configuration is within the ranges of the
    interface (32-bit SSRC, 7-bit payload type, 16-bit port). *)
Record operational (st : RTPProxy) : Prop := {
  op_ssrc : uint32 (outgoingSSRC st);
  op_pt : ∀ o, outgoingPayloadType st = Some o → (0 ≤ o < 128)%Z;
  op_port : (0 ≤ outgoingPort st ≤ 65535)%Z;
  op_socket : ∃ s, outgoingSocket st = Some s ∧ sock_running s = true
}.

(** The candidate after a failed pair, and the log of the attempts. *)
Definition nextPairPort (p : Z) : Z :=
  if (p =? 65534)%Z then 10000%Z else (p + 1)%Z.

Definition failedAttempt (id : nat) (p : Z) : list Event :=
  [EvCreate id; EvCreate (S id); EvBind id p; EvBind (S id) (p + 1);
   EvClose id; EvClose (S id)].

Definition wonAttempt (id : nat) (p : Z) : list Event :=
  [EvCreate id; EvCreate (S id); EvBind id p; EvBind (S id) (p + 1)].

Fixpoint pairTrace (failures id : nat) (p : Z) : list Event :=
  match failures with
  | O => wonAttempt id p
  | S n => failedAttempt id p ++ pairTrace n (id + 6) (nextPairPort p)
  end.

(** "Set if absent": the one way the learned SSRC is written. *)
Definition learn (v : option Z) (st : RTPProxy) : RTPProxy :=
  match incomingSSRC st with
  | Some _ => st
  | None => set_incomingSSRC v st
  end.

(** The instance after [sendOut] handed [msg] to the outgoing socket: the
    log grows by one send, unless the peer is not configured. *)
Definition delivered (msg : Buffer) (st : RTPProxy) : RTPProxy :=
  if (String.eqb (outgoingAddress st) "" || (outgoingPort st =? 0)%Z) then st
  else match outgoingSocket st with
       | Some s => log [EvSend (sock_id s) msg (outgoingPort st) (outgoingAddress st)] st
       | None => st
       end.

(** The buffer [rtpMessage] hands to [sendOut] for a packet of at least 12
    bytes, when no accessor throws. *)
Definition rtpOutput (msg : Buffer) (st : RTPProxy) : Buffer :=
  patch 8 (Buf.be32 (outgoingSSRC st))
    match msg !! 1%nat with
    | Some mpt =>
        if (js_and mpt 0x7F =? incomingPayloadType st)%Z
        then <[1%nat := js_or (js_and mpt 0x80) (outgoingPayloadType st)]> msg
        else msg
    | None => msg
    end.

(** What the forward path learns from the sub-packets of one datagram. *)
Definition forwardLearn (st : RTPProxy) (ps : list Buffer) : RTPProxy :=
  foldl (λ st p, if qualifyingSR p then learn (word32_at p 4) st else st) st ps.

Definition payload (d : Inbound) : Buffer :=
  match d with
  | OnRTP msg => msg
  | OnRTCP msg => msg
  end.

(** The rewrite of one sub-packet on the reply path, once an SSRC has been
    learned. *)
Definition replyRewrite (ssrc : Z) (p : Buffer) : Buffer :=
  if qualifyingRR p then patch 8 (Buf.be32 ssrc) p else p.

(** The sockets the instance holds, in the order [destroy] visits them. *)
Definition owned (st : RTPProxy) : list Socket :=
  option_list (incomingRTPSocket st) ++ option_list (incomingRTCPSocket st)
  ++ option_list (outgoingSocket st).

Definition stopped (s : Socket) : Socket :=
  mkSocket (sock_id s) (sock_port s) false.

(** The candidate port after [k] failed pairs, and whether the pair that
    starts at socket [id] and port [p] binds both its ports. *)
Fixpoint candidate (k : nat) (p : Z) : Z :=
  match k with
  | O => p
  | S k => candidate k (nextPairPort p)
  end.

Definition bothBind (bindOk : nat → Z → bool) (id : nat) (p : Z) : bool :=
  bindOk id p && bindOk (S id) (p + 1)%Z.

(** * The rest of the class *)

(** ** Late-bound server endpoint *)

Definition setServerAddress (address : string) (st : RTPProxy) : RTPProxy :=
  mkRTPProxy (startingPort st) (outgoingAddress st) (outgoingPort st)
    (incomingPayloadType st) (outgoingSSRC st) (incomingSSRC st)
    (outgoingPayloadType st) (disabled st) (incomingRTPSocket st)
    (incomingRTCPSocket st) (outgoingSocket st) (Some address)
    (serverRTPPort st) (serverRTCPPort st) (events st).

Definition setServerRTPPort (port : Z) (st : RTPProxy) : RTPProxy :=
  mkRTPProxy (startingPort st) (outgoingAddress st) (outgoingPort st)
    (incomingPayloadType st) (outgoingSSRC st) (incomingSSRC st)
    (outgoingPayloadType st) (disabled st) (incomingRTPSocket st)
    (incomingRTCPSocket st) (outgoingSocket st) (serverAddress st)
    (Some port) (serverRTCPPort st) (events st).

Definition setServerRTCPPort (port : Z) (st : RTPProxy) : RTPProxy :=
  mkRTPProxy (startingPort st) (outgoingAddress st) (outgoingPort st)
    (incomingPayloadType st) (outgoingSSRC st) (incomingSSRC st)
    (outgoingPayloadType st) (disabled st) (incomingRTPSocket st)
    (incomingRTCPSocket st) (outgoingSocket st) (serverAddress st)
    (serverRTPPort st) (Some port) (events st).

(** [sendBack]: dropped while the server address or RTCP port is falsy
    (undefined, the empty string, zero); otherwise one [send] on the
    outgoing socket towards the server. *)
Definition sendBack (msg : Buffer) (st : RTPProxy) : Result RTPProxy :=
  match serverAddress st, serverRTCPPort st with
  | Some address, Some port =>
      if (String.eqb address "" || (port =? 0)%Z) then Ok st
      else match outgoingSocket st with
           | None => Throw TypeError
           | Some s => ev ← Dgram.send s msg port address; Ok (log [ev] st)
           end
  | _, _ => Ok st
  end.

(** ** The local ports *)

Section Address.

(** [socket.address()] of a datagram socket is a record with the port, never
    a string, so the [throw] that ends the three accessors is not reached.
    A socket that was closed refuses the call; what [getsockname] answers
    for a socket that holds a handle without a bound address is left to
    [unboundAddress]. *)
Variable unboundAddress : Socket → Result Z.

Definition address_port (s : Socket) : Result Z :=
  if sock_running s then
    match sock_port s with
    | Some port => Ok port
    | None => unboundAddress s
    end
  else Throw ERR_SOCKET_DGRAM_NOT_RUNNING.

Definition incomingRTPPort (st : RTPProxy) : Result Z :=
  match incomingRTPSocket st with
  | Some s => address_port s
  | None => Throw TypeError
  end.

Definition incomingRTCPPort (st : RTPProxy) : Result Z :=
  match incomingRTCPSocket st with
  | Some s => address_port s
  | None => Throw TypeError
  end.

Definition outgoingLocalPort (st : RTPProxy) : Result Z :=
  match outgoingSocket st with
  | Some s => address_port s
  | None => Throw TypeError
  end.

End Address.

(** ** The message handlers as [onBound] attaches them *)

Inductive Source := IncomingRTP | IncomingRTCP | Outgoing.

#[global] Instance Source_eq_dec : EqDecision Source.
Proof. solve_decision. Defined.

(** The sockets that have a [message] listener after [onBound]. *)
Definition onBound (st : RTPProxy) : list Source :=
  if disabled st then [] else [IncomingRTP; IncomingRTCP; Outgoing].

Section Calls.

Variable writeNonNumber : nat → Buffer → Result Buffer.

(** A [message] event on one of the three sockets after [onBound]: the
    listener of that socket runs, if there is one. *)
Definition onMessage (from : Source) (msg : Buffer) (st : RTPProxy)
  : Result RTPProxy :=
  if bool_decide (from ∈ onBound st) then
    match from with
    | IncomingRTP => rtpMessage msg st
    | IncomingRTCP => rtcpMessage msg st
    | Outgoing => rtcpReply writeNonNumber msg st
    end
  else Ok st.

(** The calls followed here between [setup] and [destroy]: a datagram
    arrives on one of the three sockets, or the owner calls one of the
    setters.  The [error] event of a socket, which the listeners that the
    allocators attached with [once] would still answer, is not one of
    them. *)
Inductive Call :=
  | Message (from : Source) (msg : Buffer)
  | SetServerAddress (address : string)
  | SetServerRTPPort (port : Z)
  | SetServerRTCPPort (port : Z)
  | SetIncomingPayloadType (pt : Z)
  | SetOutgoingPayloadType (pt : Z).

Definition call (c : Call) (st : RTPProxy) : Result RTPProxy :=
  match c with
  | Message from msg => onMessage from msg st
  | SetServerAddress address => Ok (setServerAddress address st)
  | SetServerRTPPort port => Ok (setServerRTPPort port st)
  | SetServerRTCPPort port => Ok (setServerRTCPPort port st)
  | SetIncomingPayloadType pt => Ok (setIncomingPayloadType pt st)
  | SetOutgoingPayloadType pt => Ok (setOutgoingPayloadType pt st)
  end.

Fixpoint callAll (cs : list Call) (st : RTPProxy) : Result RTPProxy :=
  match cs with
  | [] => Ok st
  | c :: cs => st ← call c st; callAll cs st
  end.

End Calls.

(** ** Reading the log *)

(** The candidate after a failed single bind, and the log of the attempts
    of [createSocket]. *)
Definition nextPort (p : Z) : Z :=
  if (p =? 65535)%Z then 10000%Z else (p + 1)%Z.

Fixpoint candidate1 (k : nat) (p : Z) : Z :=
  match k with
  | O => p
  | S k => candidate1 k (nextPort p)
  end.

Definition failedBind (id : nat) (p : Z) : list Event :=
  [EvCreate id; EvBind id p; EvClose id].

Definition wonBind (id : nat) (p : Z) : list Event :=
  [EvCreate id; EvBind id p].

Fixpoint socketTrace (failures id : nat) (p : Z) : list Event :=
  match failures with
  | O => wonBind id p
  | S n => failedBind id p ++ socketTrace n (id + 3) (nextPort p)
  end.

(** The sockets a log creates and the sockets it closes, in order. *)
Definition createdIds (tr : list Event) : list nat :=
  omap (λ e, match e with EvCreate id => Some id | _ => None end) tr.

Definition closedIds (tr : list Event) : list nat :=
  omap (λ e, match e with EvClose id => Some id | _ => None end) tr.

(** A send towards the fixed peer on the outgoing socket of [st]. *)
Definition peerSend (st : RTPProxy) (e : Event) : Prop :=
  ∃ s msg, outgoingSocket st = Some s
           ∧ e = EvSend (sock_id s) msg (outgoingPort st) (outgoingAddress st).

(** The fields a handler or a setter may not touch. *)
Definition sameWiring (st st' : RTPProxy) : Prop :=
  startingPort st' = startingPort st
  ∧ outgoingAddress st' = outgoingAddress st
  ∧ outgoingPort st' = outgoingPort st
  ∧ outgoingSSRC st' = outgoingSSRC st
  ∧ disabled st' = disabled st
  ∧ incomingRTPSocket st' = incomingRTPSocket st
  ∧ incomingRTCPSocket st' = incomingRTCPSocket st
  ∧ outgoingSocket st' = outgoingSocket st.

(** A step that forwards nothing: wiring and log untouched, a learned SSRC
    kept. *)
Definition quiet (st st' : RTPProxy) : Prop :=
  sameWiring st st'
  ∧ events st' = events st
  ∧ (∀ x, incomingSSRC st = Some x → incomingSSRC st' = Some x).

(** Steps that together put at most [k] datagrams on the wire, all of them
    towards the fixed peer, and do nothing else to the datagram layer. *)
Definition relayedBy (k : nat) (st st' : RTPProxy) : Prop :=
  sameWiring st st'
  ∧ (∀ x, incomingSSRC st = Some x → incomingSSRC st' = Some x)
  ∧ ∃ sends, events st' = events st ++ sends
             ∧ length sends ≤ k ∧ Forall (peerSend st) sends.

Definition isMessage (c : Call) : bool :=
  match c with
  | Message _ _ => true
  | _ => false
  end.

(** The transform that keeps every sub-packet as it is. *)
Definition keepAll : Transform := λ _ packet st, Ok (Some packet, st).

(** A port is free or taken whoever asks. *)
Definition staticEnv (free : Z → bool) : nat → Z → bool := λ _ port, free port.

(** ** Sample data *)

Definition scenarioA_msg : Buffer :=
  [0x80; 0x60; 0x00; 0x01; 0x00; 0x00; 0x00; 0x00; 0x11; 0x11; 0x11; 0x11]%Z.

Definition demo_socket (id : nat) (port : Z) : Socket := mkSocket id (Some port) true.

Definition demo_proxy : RTPProxy :=
  set_sockets (Some (demo_socket 0 10000)) (Some (demo_socket 1 10001))
              (Some (demo_socket 2 10002))
    (constructor (mkOptions false "192.0.2.1" 5004 0xAAAAAAAA)).

Definition scenarioA_proxy : RTPProxy :=
  setOutgoingPayloadType 99 (setIncomingPayloadType 96 demo_proxy).

(** Scenario E: a Sender Report of 6 words (28 bytes, SSRC 0x22222222)
    followed by an 8-byte sub-packet of type 204. *)
Definition scenarioE_sr : Buffer :=
  [0x80; 200; 0; 6; 0x22; 0x22; 0x22; 0x22;
   1; 2; 3; 4; 5; 6; 7; 8; 9; 10; 11; 12; 13; 14; 15; 16; 17; 18; 19; 20]%Z.
Definition scenarioE_app : Buffer := [0x80; 204; 0; 1; 0x33; 0x33; 0x33; 0x33]%Z.
Definition scenarioE_msg : Buffer := scenarioE_sr ++ scenarioE_app.

(** An RTP packet with the marker bit set and payload type 96, for an
    instance told the incoming payload type but never the outgoing one. *)
Definition marked_msg : Buffer :=
  [0x80; 0xE0; 0x00; 0x02; 0x00; 0x00; 0x00; 0x07; 0x11; 0x11; 0x11; 0x11]%Z.

Definition half_configured_proxy : RTPProxy := setIncomingPayloadType 96 demo_proxy.

(** Too short for an RTP header. *)
Definition short_msg : Buffer := [0x80; 0x60; 0x00; 0x01; 0xDE; 0xAD]%Z.

(** A short RTP packet, then the compound packet of scenario E, then the
    RTP packet of scenario A, whose bytes 4-7 differ from the SSRC of the
    Sender Report. *)
Definition sample_traffic : list Inbound :=
  [OnRTP short_msg; OnRTCP scenarioE_msg; OnRTP scenarioA_msg].

(** A Receiver Report with one report block (8 words, 32 bytes). *)
Definition sample_rr : Buffer :=
  [0x81; 201; 0; 7; 0xAA; 0xAA; 0xAA; 0xAA; 0x11; 0x11; 0x11; 0x11;
   0; 0; 0; 0; 0; 0; 0; 9; 0; 0; 0; 0; 0; 0; 0; 0; 0; 0; 0; 0]%Z.

(** The instance of scenario E after it learned the SSRC of the Sender
    Report. *)
Definition learned_proxy : RTPProxy := set_incomingSSRC (Some 0x22222222%Z) demo_proxy.

(** Transforms that are not those of the class: one drops every sub-packet,
    one rewrites every sub-packet to the empty buffer. *)
Definition dropAll : Transform := λ _ _ st, Ok (None, st).
Definition emptyAll : Transform := λ _ _ st, Ok (Some [], st).

(** An instance whose [setup] has bound the incoming pair and is still
    waiting for the outgoing socket. *)
Definition half_setup_proxy : RTPProxy :=
  set_sockets (Some (demo_socket 0 10000)) (Some (demo_socket 1 10001)) None
    (constructor (mkOptions false "192.0.2.1" 5004 0xAAAAAAAA)).

(** Scenario D: port 10000 is taken, every other port is free; the socket
    of a pair that asked first hears first. *)
Definition scenarioD_bindOk : nat → Z → bool := λ _ port, negb (port =? 10000)%Z.
Definition scenarioC_bindOk : nat → Z → bool := λ _ _, true.
Definition no_ephemeral : nat → Z := λ _, 0%Z.
Definition in_order : nat → bool := λ _, true.
Definition fresh_proxy : RTPProxy :=
  constructor (mkOptions false "192.0.2.1" 5004 0xAAAAAAAA).

(** Scenario E followed by a sub-packet that declares 5 words (24 bytes)
    of which only 8 bytes are there. *)
Definition overrun_msg : Buffer :=
  scenarioE_msg ++ [0x80; 202; 0; 5; 1; 2; 3; 4]%Z.

(** Ports 10000 and 10001 are taken, as they are once the incoming pair of
    an instance sits there; every other port is free. *)
Definition pairTaken_free : Z → bool :=
  λ port, negb (port =? 10000)%Z && negb (port =? 10001)%Z.

Definition scenarioD_free : Z → bool := λ port, negb (port =? 10000)%Z.

(** Only port 65535 is free, and the cursor has come to 65534. *)
Definition lastPort_free : Z → bool := λ port, (port =? 65535)%Z.
Definition late_proxy : RTPProxy := set_startingPort 65534 fresh_proxy.

(** [getsockname] refusing a socket that has no address. *)
Definition refuse_unbound : Socket → Result Z := λ _, Throw ERR_SOCKET_DGRAM_NOT_RUNNING.

(** Port 10000 is taken by someone else; ports 10001 and 10002 are free
    for the first sockets that ask and taken for the later ones, as they are
    once the incoming pair sits there. *)
Definition crowded_bindOk : nat → Z → bool := λ id port,
  negb (port =? 10000)%Z
  && negb ((8 <=? id)%nat && ((port =? 10001) || (port =? 10002))%Z).

(** The instance [setup] leaves in that environment. *)
Definition setup_done_proxy : RTPProxy :=
  set_sockets (Some (mkSocket 6 (Some 10001%Z) true))
    (Some (mkSocket 7 (Some 10002%Z) true))
    (Some (mkSocket 16 (Some 10003%Z) true))
    (set_startingPort 10003
       (log (failedAttempt 0 10000 ++ wonAttempt 6 10001
             ++ failedBind 10 10001 ++ failedBind 13 10002 ++ wonBind 16 10003)
          fresh_proxy)).

(** The owner registers a server endpoint, then a compound packet, a
    Receiver Report from the peer and an RTP packet arrive. *)
Definition sample_calls : list Call :=
  [SetServerAddress "198.51.100.7"; SetServerRTCPPort 6000;
   Message IncomingRTCP scenarioE_msg; Message Outgoing sample_rr;
   Message IncomingRTP scenarioA_msg].

(** An instance that learned its SSRC and was given a server endpoint, and
    what a Receiver Report arriving on its outgoing socket leaves. *)
Definition served_proxy : RTPProxy :=
  setServerRTCPPort 6000 (setServerAddress "198.51.100.7" learned_proxy).

Definition served_proxy_after_report : RTPProxy :=
  Eval vm_compute in
    match call node_writeNonNumber (Message Outgoing sample_rr) served_proxy with
    | Ok st => st
    | _ => served_proxy
    end.

(** The system hands out port 49152 when asked to choose. *)
Definition system_port : nat → Z := λ _, 49152%Z.

(** The same instance, constructed disabled. *)
Definition disabled_proxy : RTPProxy :=
  set_sockets (Some (demo_socket 0 10000)) (Some (demo_socket 1 10001))
              (Some (demo_socket 2 10002))
    (constructor (mkOptions true "192.0.2.1" 5004 0xAAAAAAAA)).

(** * Properties *)

Example scenarioA_run :
  events <$> (match rtpMessage scenarioA_msg scenarioA_proxy with Ok s => Some s | _ => None end)
  = Some [EvSend 2 [0x80; 0x63; 0x00; 0x01; 0x00; 0x00; 0x00; 0x00; 0xAA; 0xAA; 0xAA; 0xAA]%Z
            5004 "192.0.2.1"].
Proof. vm_compute. reflexivity. Qed.

Example scenarioE_run :
  events <$> (match rtcpMessage scenarioE_msg demo_proxy with Ok s => Some s | _ => None end)
  = Some [EvSend 2 (patch 4 [0xAA; 0xAA; 0xAA; 0xAA]%Z scenarioE_sr ++ scenarioE_app)
            5004 "192.0.2.1"].
Proof. vm_compute. reflexivity. Qed.

(** ** Bytes and words *)

Lemma bind_Ok {A B} (a : A) (f : A → Result B) : (Ok a ≫= f) = f a.
Proof. reflexivity. Qed.

(** A property of all integers below a bound, checked by enumeration. *)
Lemma below_forall (n : nat) (P : Z → bool) :
  forallb P (map Z.of_nat (seq 0 n)) = true →
  ∀ z, (0 ≤ z < Z.of_nat n)%Z → P z = true.
Proof.
  intros Hall z Hz.
  rewrite forallb_forall in Hall. apply Hall.
  apply in_map_iff. exists (Z.to_nat z). split; [lia|].
  apply in_seq. lia.
Qed.

Lemma toInt32_small v : (- 2 ^ 31 ≤ v < 2 ^ 31)%Z → toInt32 v = v.
Proof.
  intros Hv. unfold toInt32.
  rewrite Z.mod_small by lia. lia.
Qed.


Lemma js_and_80 b : is_byte b → js_and b 0x80 = Z.land b 0x80.
Proof.
  intros Hb.
  apply Z.eqb_eq.
  apply (below_forall 256 (λ b, js_and b 0x80 =? Z.land b 0x80)%Z); [|exact Hb].
  vm_compute. reflexivity.
Qed.

(** The marker bit of a byte, alone, is a byte. *)
Lemma marker_alone b :
  is_byte b → is_byte (Z.land b 0x80) ∧ Z.land (Z.land b 0x80) 0x7F = 0%Z
              ∧ Z.land (Z.land b 0x80) 0x80 = Z.land b 0x80.
Proof.
  intros Hb.
  pose (P := λ b : Z,
    ((0 <=? Z.land b 0x80) && (Z.land b 0x80 <? 256)
     && (Z.land (Z.land b 0x80) 0x7F =? 0)
     && (Z.land (Z.land b 0x80) 0x80 =? Z.land b 0x80))%Z).
  assert (HP : P b = true).
  { apply (below_forall 256); [vm_compute; reflexivity | exact Hb]. }
  unfold P in HP. unfold is_byte. lia.
Qed.

(** Marker bit kept, payload type replaced: [(mpt & 0x80) | o] for a 7-bit
    [o]. *)
Lemma marker_or_pt b o :
  is_byte b → (0 ≤ o < 128)%Z →
  let v := js_or (js_and b 0x80) (Some o) in
  is_byte v ∧ Z.land v 0x80 = Z.land b 0x80 ∧ Z.land v 0x7F = o.
Proof.
  intros Hb Ho. cbv zeta.
  rewrite js_and_80 by exact Hb.
  assert (Hm : Z.land b 0x80 = 0%Z ∨ Z.land b 0x80 = 128%Z).
  { assert (H : ((Z.land b 0x80 =? 0) || (Z.land b 0x80 =? 128))%Z = true).
    { apply (below_forall 256
               (λ b, (Z.land b 0x80 =? 0) || (Z.land b 0x80 =? 128))%Z);
        [vm_compute; reflexivity | exact Hb]. }
    lia. }
  pose (Q := λ m o : Z,
    let v := js_or m (Some o) in
    ((0 <=? v) && (v <? 256) && (Z.land v 0x80 =? m) && (Z.land v 0x7F =? o))%Z).
  assert (HQ : Q (Z.land b 0x80) o = true).
  { destruct Hm as [-> | ->];
      (apply (below_forall 128); [vm_compute; reflexivity | exact Ho]). }
  unfold Q in HQ. cbv zeta in HQ. unfold is_byte. lia.
Qed.

(** With no substitute configured the [null] operand adds nothing. *)
Lemma marker_or_null b :
  is_byte b → js_or (js_and b 0x80) None = Z.land b 0x80.
Proof.
  intros Hb.
  apply Z.eqb_eq.
  apply (below_forall 256
           (λ b, js_or (js_and b 0x80) None =? Z.land b 0x80)%Z); [|exact Hb].
  vm_compute. reflexivity.
Qed.

Lemma be32_value v :
  uint32 v →
  ((v ≫ 24) `mod` 256 * 2 ^ 24 + (v ≫ 16) `mod` 256 * 2 ^ 16
   + (v ≫ 8) `mod` 256 * 2 ^ 8 + v `mod` 256)%Z = v.
Proof.
  unfold uint32. intros Hv.
  rewrite !Z.shiftr_div_pow2 by lia.
  change (2 ^ 32)%Z with 4294967296%Z in Hv.
  change (2 ^ 24)%Z with 16777216%Z.
  change (2 ^ 16)%Z with 65536%Z.
  change (2 ^ 8)%Z with 256%Z.
  Z.div_mod_to_equations. lia.
Qed.

Lemma be32_bytes v : Forall is_byte (Buf.be32 v).
Proof.
  unfold Buf.be32, is_byte.
  repeat constructor; apply Z.mod_pos_bound; lia.
Qed.

(** ** The accessors on buffers that are long enough *)

Lemma length_patch bytes : ∀ off buf, length (patch off bytes buf) = length buf.
Proof.
  induction bytes as [|b bytes IH]; intros off buf; cbn [patch]; [done|].
  by rewrite length_insert, IH.
Qed.

Lemma lookup_patch_out bytes : ∀ off buf i,
  i < off ∨ off + length bytes ≤ i → patch off bytes buf !! i = buf !! i.
Proof.
  induction bytes as [|b bytes IH]; intros off buf i Hi;
    cbn [patch length] in *; [done|].
  rewrite list_lookup_insert_ne by lia.
  apply IH. lia.
Qed.

Lemma lookup_patch_in bytes : ∀ off buf k,
  off + length bytes ≤ length buf → k < length bytes →
  patch off bytes buf !! (off + k) = bytes !! k.
Proof.
  induction bytes as [|b bytes IH]; intros off buf k Hlen Hk;
    cbn [patch length] in *; [lia|].
  destruct k as [|k].
  - rewrite Nat.add_0_r. apply list_lookup_insert_eq.
    rewrite length_patch. lia.
  - rewrite list_lookup_insert_ne by lia.
    replace (off + S k) with (S off + k) by lia.
    apply IH; lia.
Qed.

Lemma take_drop_patch bytes off buf :
  off + length bytes ≤ length buf →
  take (length bytes) (drop off (patch off bytes buf)) = bytes.
Proof.
  intros Hlen. apply list_eq. intros i.
  destruct (decide (i < length bytes)) as [Hi|Hi].
  - rewrite lookup_take_lt, lookup_drop by done.
    by apply lookup_patch_in.
  - rewrite lookup_take_ge by lia.
    symmetry. apply lookup_ge_None. lia.
Qed.

Lemma readUInt8_lookup buf i v : buf !! i = Some v → Buf.readUInt8 buf i = Ok v.
Proof. unfold Buf.readUInt8. by intros ->. Qed.

Lemma writeUInt8_ok v i buf :
  is_byte v → i < length buf → Buf.writeUInt8 v i buf = Ok (<[i := v]> buf).
Proof.
  unfold is_byte, Buf.writeUInt8. intros Hv Hi.
  destruct (lookup_lt_is_Some_2 buf i Hi) as [x ->].
  replace ((255 <? v) || (v <? 0))%Z with false by lia. done.
Qed.

Lemma writeUInt32BE_ok v off buf :
  uint32 v → off + 4 ≤ length buf →
  Buf.writeUInt32BE v off buf = Ok (patch off (Buf.be32 v) buf).
Proof.
  unfold uint32, Buf.writeUInt32BE. intros Hv Hlen.
  change (2 ^ 32)%Z with 4294967296%Z in Hv.
  replace ((4294967295 <? v) || (v <? 0))%Z with false by lia.
  destruct (lookup_lt_is_Some_2 buf off) as [x ->]; [lia|].
  destruct (lookup_lt_is_Some_2 buf (off + 3)) as [y ->]; [lia|].
  simpl. by rewrite Nat.add_1_r, (Nat.add_comm off 2), (Nat.add_comm off 3).
Qed.

Lemma lookup_patch_at bytes off buf i k :
  off + length bytes ≤ length buf → k < length bytes → i = off + k →
  patch off bytes buf !! i = bytes !! k.
Proof. intros Hlen Hk ->. by apply lookup_patch_in. Qed.

Lemma readUInt32BE_patch v off buf :
  uint32 v → off + 4 ≤ length buf →
  Buf.readUInt32BE (patch off (Buf.be32 v) buf) off = Ok v.
Proof.
  intros Hv Hlen. unfold Buf.readUInt32BE.
  rewrite (lookup_patch_at _ _ _ off 0), (lookup_patch_at _ _ _ (off + 1) 1),
    (lookup_patch_at _ _ _ (off + 2) 2), (lookup_patch_at _ _ _ (off + 3) 3)
    by (simpl; lia).
  simpl. f_equal. by apply be32_value.
Qed.

(** A read that stays clear of a one-byte write sees the old bytes. *)
Lemma readUInt32BE_insert buf i v off :
  i < off ∨ off + 4 ≤ i →
  Buf.readUInt32BE (<[i := v]> buf) off = Buf.readUInt32BE buf off.
Proof.
  intros Hi. unfold Buf.readUInt32BE, Buf.boundsError.
  rewrite !list_lookup_insert_ne, length_insert by lia. done.
Qed.

Lemma readUInt32BE_is_Ok buf off :
  off + 4 ≤ length buf → ∃ v, Buf.readUInt32BE buf off = Ok v.
Proof.
  intros Hlen. unfold Buf.readUInt32BE.
  destruct (lookup_lt_is_Some_2 buf off) as [a ->]; [lia|].
  destruct (lookup_lt_is_Some_2 buf (off + 1)) as [b ->]; [lia|].
  destruct (lookup_lt_is_Some_2 buf (off + 2)) as [c ->]; [lia|].
  destruct (lookup_lt_is_Some_2 buf (off + 3)) as [d ->]; [lia|].
  eauto.
Qed.

Lemma readUInt32BE_uint32 buf off v :
  Forall is_byte buf → Buf.readUInt32BE buf off = Ok v → uint32 v.
Proof.
  intros Hb. unfold Buf.readUInt32BE, Buf.boundsError.
  destruct (buf !! off) as [a|] eqn:Ha; [|by case_match].
  destruct (buf !! (off + 1)) as [b|] eqn:Hb1; [|by case_match].
  destruct (buf !! (off + 2)) as [c|] eqn:Hc; [|by case_match].
  destruct (buf !! (off + 3)) as [d|] eqn:Hd; [|by case_match].
  intros [= <-].
  rewrite Forall_lookup in Hb.
  pose proof (Hb _ _ Ha). pose proof (Hb _ _ Hb1).
  pose proof (Hb _ _ Hc). pose proof (Hb _ _ Hd).
  unfold is_byte, uint32 in *.
  change (2 ^ 32)%Z with 4294967296%Z.
  change (2 ^ 24)%Z with 16777216%Z.
  change (2 ^ 16)%Z with 65536%Z.
  change (2 ^ 8)%Z with 256%Z.
  lia.
Qed.

(** ** Forwarding *)

Lemma sendOut_delivered msg st :
  (0 ≤ outgoingPort st ≤ 65535)%Z →
  (∃ s, outgoingSocket st = Some s ∧ sock_running s = true) →
  sendOut msg st = Ok (delivered msg st).
Proof.
  intros Hport (s & Hs & Hrun). unfold sendOut, delivered.
  destruct (String.eqb (outgoingAddress st) "") eqn:Haddr; [done|].
  destruct (outgoingPort st =? 0)%Z eqn:Hp; [done|]. simpl.
  rewrite Hs. unfold Dgram.send. rewrite Hrun.
  replace ((outgoingPort st <? 1) || (65535 <? outgoingPort st))%Z
    with false by lia.
  done.
Qed.

Lemma sendOut_operational msg st :
  operational st → sendOut msg st = Ok (delivered msg st).
Proof. intros [? ? ? ?]. by apply sendOut_delivered. Qed.

Lemma learn_operational v st : operational st → operational (learn v st).
Proof.
  intros [? ? ? ?]. unfold learn.
  destruct (incomingSSRC st); constructor; simpl; done.
Qed.

Lemma delivered_operational msg st : operational st → operational (delivered msg st).
Proof.
  intros [H1 H2 H3 (s & Hs & Hr)]. unfold delivered.
  destruct (_ || _); [constructor; eauto|].
  rewrite Hs. constructor; simpl; eauto.
Qed.

Lemma delivered_incomingSSRC msg st :
  incomingSSRC (delivered msg st) = incomingSSRC st.
Proof.
  unfold delivered. destruct (_ || _); [done|].
  by destruct (outgoingSocket st).
Qed.

(** ** The RTP rewrite *)

Lemma rewritten_byte_is_byte b (o : option Z) :
  is_byte b → (∀ v, o = Some v → (0 ≤ v < 128)%Z) →
  is_byte (js_or (js_and b 0x80) o).
Proof.
  intros Hb Ho. destruct o as [v|].
  - by apply marker_or_pt; [|apply Ho].
  - rewrite marker_or_null by done. by apply marker_alone.
Qed.

Lemma rtpMessage_long msg st :
  Forall is_byte msg → 12 ≤ length msg →
  uint32 (outgoingSSRC st) →
  (∀ o, outgoingPayloadType st = Some o → (0 ≤ o < 128)%Z) →
  rtpMessage msg st = sendOut (rtpOutput msg st) (learn (word32_at msg 4) st).
Proof.
  intros Hbytes Hlen Hssrc Hpt.
  destruct (lookup_lt_is_Some_2 msg 1) as [mpt Hmpt]; [lia|].
  assert (Hb : is_byte mpt) by (by eapply Forall_lookup_1).
  destruct (readUInt32BE_is_Ok msg 4) as [ssrc Hread]; [lia|].
  unfold rtpMessage, rtpOutput, learn, word32_at.
  replace (length msg <? 12) with false by (symmetry; apply Nat.ltb_ge; lia).
  rewrite (readUInt8_lookup _ _ _ Hmpt), bind_Ok, Hmpt, Hread.
  destruct (js_and mpt 127 =? incomingPayloadType st)%Z.
  - rewrite writeUInt8_ok by (by apply rewritten_byte_is_byte || lia).
    rewrite bind_Ok.
    destruct (incomingSSRC st) eqn:Hin; rewrite ?bind_Ok.
    + rewrite writeUInt32BE_ok by (rewrite ?length_insert; done || lia).
      by rewrite bind_Ok.
    + rewrite readUInt32BE_insert, Hread, !bind_Ok by lia. simpl.
      rewrite writeUInt32BE_ok by (rewrite ?length_insert; done || lia).
      by rewrite bind_Ok.
  - rewrite bind_Ok.
    destruct (incomingSSRC st) eqn:Hin; rewrite ?bind_Ok.
    + rewrite writeUInt32BE_ok by (done || lia). by rewrite bind_Ok.
    + rewrite Hread, !bind_Ok. simpl.
      rewrite writeUInt32BE_ok by (done || lia). by rewrite bind_Ok.
Qed.






Lemma scenarioA_operational : operational scenarioA_proxy.
Proof.
  constructor; simpl.
  - unfold uint32. lia.
  - intros o [= <-]. lia.
  - lia.
  - eexists; split; reflexivity.
Qed.


Lemma demo_operational : operational demo_proxy.
Proof.
  constructor; simpl.
  - unfold uint32. lia.
  - intros o [=].
  - lia.
  - eexists; split; reflexivity.
Qed.

Lemma rtpMessage_short msg st :
  length msg < 12 → rtpMessage msg st = sendOut msg st.
Proof.
  intros Hlen. unfold rtpMessage.
  by replace (length msg <? 12) with true by (symmetry; apply Nat.ltb_lt; lia).
Qed.

(** C7.  An RTP packet shorter than 12 bytes goes to [sendOut] as it came:
    the call is exactly [sendOut msg] on the unchanged instance; on an
    operational instance it returns without error, the learned SSRC is what
    it was, and the instance is either unchanged (peer not configured) or
    its log has grown by the single send of the very bytes received. *)
Theorem rtpMessage_short_passthrough (msg : Buffer) (st : RTPProxy) :
  length msg < 12 → operational st →
  rtpMessage msg st = sendOut msg st
  ∧ rtpMessage msg st = Ok (delivered msg st)
  ∧ incomingSSRC (delivered msg st) = incomingSSRC st
  ∧ (delivered msg st = st
     ∨ ∃ s, outgoingSocket st = Some s
            ∧ delivered msg st =
                log [EvSend (sock_id s) msg (outgoingPort st) (outgoingAddress st)] st).
Proof.
  intros Hlen Hop.
  assert (Hcall : rtpMessage msg st = sendOut msg st) by (by apply rtpMessage_short).
  split; [done|].
  split; [by rewrite Hcall; apply sendOut_operational|].
  split; [apply delivered_incomingSSRC|].
  unfold delivered.
  destruct (_ || _); [by left|].
  destruct Hop as [_ _ _ (s & Hs & _)]. rewrite Hs. right. eauto.
Qed.

Lemma rtpMessage_short_passthrough_witness :
  rtpMessage short_msg demo_proxy = sendOut short_msg demo_proxy
  ∧ rtpMessage short_msg demo_proxy = Ok (delivered short_msg demo_proxy)
  ∧ incomingSSRC (delivered short_msg demo_proxy) = incomingSSRC demo_proxy
  ∧ (delivered short_msg demo_proxy = demo_proxy
     ∨ ∃ s, outgoingSocket demo_proxy = Some s
            ∧ delivered short_msg demo_proxy =
                log [EvSend (sock_id s) short_msg (outgoingPort demo_proxy)
                       (outgoingAddress demo_proxy)] demo_proxy).
Proof.
  apply (rtpMessage_short_passthrough short_msg demo_proxy).
  - simpl. lia.
  - exact demo_operational.
Defined.




Example marked_msg_run :
  events <$> (match rtpMessage marked_msg half_configured_proxy with Ok s => Some s | _ => None end)
  = Some [EvSend 2 [0x80; 0x80; 0x00; 0x02; 0x00; 0x00; 0x00; 0x07; 0xAA; 0xAA; 0xAA; 0xAA]%Z
            5004 "192.0.2.1"].
Proof. vm_compute. reflexivity. Qed.

(** ** The RTCP compound walk *)

Lemma declaredLength_ge4 rest : 4 ≤ declaredLength rest.
Proof. unfold declaredLength. repeat case_match; lia. Qed.

Lemma subpackets_aux_fuel : ∀ f1 f2 rest,
  length rest ≤ f1 → length rest ≤ f2 →
  subpackets_aux f1 rest = subpackets_aux f2 rest.
Proof.
  induction f1 as [|f1 IH]; intros f2 rest H1 H2.
  - destruct f2 as [|f2]; [done|]. simpl.
    by replace (length rest <? 4) with true by (symmetry; apply Nat.ltb_lt; lia).
  - destruct f2 as [|f2]; simpl.
    + by replace (length rest <? 4) with true by (symmetry; apply Nat.ltb_lt; lia).
    + destruct (length rest <? 4) eqn:H4; [done|].
      destruct (length rest <? declaredLength rest) eqn:Hd; [done|].
      f_equal. pose proof (declaredLength_ge4 rest).
      apply Nat.ltb_ge in H4.
      apply IH; rewrite length_drop; lia.
Qed.

Lemma subpackets_stop rest :
  length rest < 4 ∨ length rest < declaredLength rest → subpackets rest = [].
Proof.
  intros Hstop. unfold subpackets.
  destruct (length rest) as [|n] eqn:Hn; [done|]. simpl. rewrite Hn.
  destruct (S n <? 4) eqn:H4; [done|].
  apply Nat.ltb_ge in H4.
  by replace (S n <? declaredLength rest) with true
    by (symmetry; apply Nat.ltb_lt; lia).
Qed.

Lemma subpackets_step rest :
  4 ≤ length rest → declaredLength rest ≤ length rest →
  subpackets rest =
    take (declaredLength rest) rest :: subpackets (drop (declaredLength rest) rest).
Proof.
  intros H4 Hd. unfold subpackets.
  destruct (length rest) as [|n] eqn:Hn; [lia|]. simpl. rewrite Hn.
  replace (S n <? 4) with false by (symmetry; apply Nat.ltb_ge; lia).
  replace (S n <? declaredLength rest) with false
    by (symmetry; apply Nat.ltb_ge; lia).
  f_equal. pose proof (declaredLength_ge4 rest).
  apply subpackets_aux_fuel; rewrite ?length_drop; lia.
Qed.

Lemma declaredLength_take n rest :
  4 ≤ n → declaredLength (take n rest) = declaredLength rest.
Proof.
  intros Hn. unfold declaredLength.
  by rewrite !lookup_take_lt by lia.
Qed.

Lemma declaredLength_app p rest :
  4 ≤ length p → declaredLength (p ++ rest) = declaredLength p.
Proof.
  intros Hp. unfold declaredLength.
  by rewrite !lookup_app_l by lia.
Qed.

(** The sub-packets are a prefix of the buffer, each as long as its header
    says, and what is left over is what made the decode stop. *)
Lemma subpackets_aux_split : ∀ fuel rest,
  length rest ≤ fuel →
  ∃ rem, rest = mjoin (subpackets rest) ++ rem
         ∧ Forall wellFormed (subpackets rest)
         ∧ (length rem < 4 ∨ length rem < declaredLength rem).
Proof.
  induction fuel as [|fuel IH]; intros rest Hfuel.
  - exists rest. rewrite subpackets_stop by lia.
    split; [done|]. split; [constructor|]. lia.
  - destruct (decide (length rest < 4 ∨ length rest < declaredLength rest))
      as [Hstop|Hgo].
    + exists rest. rewrite subpackets_stop by done.
      split; [done|]. split; [constructor|done].
    + pose proof (declaredLength_ge4 rest).
      rewrite subpackets_step by lia.
      destruct (IH (drop (declaredLength rest) rest)) as (rem & Hrem & Hwf & Hend).
      { rewrite length_drop. lia. }
      exists rem. split; [|split; [|done]].
      * simpl. rewrite <- app_assoc, <- Hrem. by rewrite take_drop.
      * constructor; [|done]. split.
        -- rewrite length_take. lia.
        -- rewrite length_take, declaredLength_take by lia. lia.
Qed.

Lemma trailing_split msg rem :
  msg = mjoin (subpackets msg) ++ rem → trailing msg = rem.
Proof.
  intros Hrem. unfold trailing.
  rewrite Hrem at 2. by rewrite drop_app_length.
Qed.

Lemma to_nat_words w : Z.to_nat (w * 4) = 4 * Z.to_nat w.
Proof. lia. Qed.

Lemma processRTCPLoop_applyTransform transform msg : ∀ fuel offset kept st,
  offset ≤ length msg → length msg - offset < fuel →
  processRTCPLoop fuel transform msg offset kept st
  = applyTransform transform (subpackets (drop offset msg)) kept st.
Proof.
  induction fuel as [|fuel IH]; intros offset kept st Hoff Hfuel; [lia|].
  simpl.
  destruct (offset + 4 <=? length msg) eqn:H4.
  - apply Nat.leb_le in H4.
    destruct (lookup_lt_is_Some_2 msg (offset + 1)) as [pt Hpt]; [lia|].
    destruct (lookup_lt_is_Some_2 msg (offset + 2)) as [hi Hhi]; [lia|].
    destruct (lookup_lt_is_Some_2 msg (offset + 2 + 1)) as [lo Hlo]; [lia|].
    rewrite (readUInt8_lookup _ _ _ Hpt), bind_Ok.
    unfold Buf.readUInt16BE. rewrite Hhi, Hlo, bind_Ok.
    assert (Hdecl : declaredLength (drop offset msg)
                    = 4 + Z.to_nat ((hi * 2 ^ 8 + lo) * 4)).
    { unfold declaredLength. rewrite !lookup_drop, Hhi.
      replace (offset + 3) with (offset + 2 + 1) by lia. rewrite Hlo.
      rewrite to_nat_words. change (2 ^ 8)%Z with 256%Z. lia. }
    destruct (length msg <? offset + 4 + Z.to_nat ((hi * 2 ^ 8 + lo) * 4)) eqn:Hover.
    + apply Nat.ltb_lt in Hover.
      rewrite subpackets_stop; [done|].
      rewrite length_drop. lia.
    + apply Nat.ltb_ge in Hover.
      rewrite (subpackets_step (drop offset msg)) by (rewrite length_drop; lia).
      simpl.
      replace (Buf.slice msg offset (offset + 4 + Z.to_nat ((hi * 2 ^ 8 + lo) * 4)))
        with (take (declaredLength (drop offset msg)) (drop offset msg)).
      2: { unfold Buf.slice. f_equal. lia. }
      replace (packetType (take (declaredLength (drop offset msg)) (drop offset msg)))
        with pt.
      2: { unfold packetType.
           pose proof (declaredLength_ge4 (drop offset msg)).
           by rewrite lookup_take_lt, lookup_drop, Hpt by lia. }
      destruct (transform pt _ st) as [[r st']| |]; [|done..].
      rewrite !bind_Ok. simpl.
      rewrite IH by lia.
      rewrite drop_drop.
      replace (offset + 4 + Z.to_nat ((hi * 2 ^ 8 + lo) * 4))
        with (offset + declaredLength (drop offset msg)) by lia.
      destruct r; simpl; [done|]. by rewrite app_nil_r.
  - apply Nat.leb_gt in H4.
    rewrite subpackets_stop; [done|].
    rewrite length_drop. lia.
Qed.

Lemma processRTCPMessage_applyTransform msg transform st :
  processRTCPMessage msg transform st
  = (r ← applyTransform transform (subpackets msg) [] st;
     Ok (reencode r.1, r.2)).
Proof.
  unfold processRTCPMessage.
  rewrite processRTCPLoop_applyTransform by lia.
  rewrite drop_0.
  destruct (applyTransform _ _ _ _) as [[kept st']| |]; [|done..].
  rewrite !bind_Ok. by destruct kept.
Qed.

(** C4.  The walk of [processRTCPMessage] is the decode of the contract,
    for every buffer and every transform: the transform meets, in order,
    exactly the sub-packets peeled off the front of the buffer, each of
    length 4 plus 4 times its big-endian word count, whatever the transform
    answers for the earlier ones; the buffer is these sub-packets followed
    by the bytes left over, of which fewer than 4 remain or whose declared
    length overruns them; the walk itself raises nothing (the result is
    that of the transform calls) and the output is the concatenation of the
    kept sub-packets in that order. *)
Theorem processRTCPMessage_decode (msg : Buffer) (transform : Transform)
    (st : RTPProxy) :
  processRTCPMessage msg transform st
  = (r ← applyTransform transform (subpackets msg) [] st;
     Ok (reencode r.1, r.2))
  ∧ msg = mjoin (subpackets msg) ++ trailing msg
  ∧ Forall wellFormed (subpackets msg)
  ∧ (length (trailing msg) < 4
     ∨ length (trailing msg) < declaredLength (trailing msg)).
Proof.
  split; [apply processRTCPMessage_applyTransform|].
  destruct (subpackets_aux_split (length msg) msg) as (rem & Hrem & Hwf & Hend);
    [done|].
  rewrite (trailing_split msg rem Hrem).
  by rewrite <- Hrem.
Qed.

Example overrun_decodes_up_to_last_whole_subpacket :
  subpackets overrun_msg = [scenarioE_sr; scenarioE_app]
  ∧ trailing overrun_msg = [0x80; 202; 0; 5; 1; 2; 3; 4]%Z
  ∧ rtcpMessage overrun_msg demo_proxy = rtcpMessage scenarioE_msg demo_proxy.
Proof. repeat split; vm_compute; reflexivity. Qed.

(** ** The forward RTCP path *)

Lemma learn_outgoingSSRC v st : outgoingSSRC (learn v st) = outgoingSSRC st.
Proof. unfold learn. by destruct (incomingSSRC st). Qed.

Lemma forwardLearn_outgoingSSRC ps : ∀ st,
  outgoingSSRC (forwardLearn st ps) = outgoingSSRC st.
Proof.
  induction ps as [|p ps IH]; intros st; [done|].
  unfold forwardLearn in *. simpl. rewrite IH.
  destruct (qualifyingSR p); [apply learn_outgoingSSRC|done].
Qed.

Lemma forwardLearn_operational ps : ∀ st,
  operational st → operational (forwardLearn st ps).
Proof.
  induction ps as [|p ps IH]; intros st Hop; [done|].
  unfold forwardLearn in *. simpl. apply IH.
  destruct (qualifyingSR p); [by apply learn_operational|done].
Qed.

Lemma rtcpMessage_transform_spec p st :
  uint32 (outgoingSSRC st) →
  rtcpMessage_transform (packetType p) p st
  = Ok (Some (forwardRewrite (outgoingSSRC st) p),
        if qualifyingSR p then learn (word32_at p 4) st else st).
Proof.
  intros Hssrc. unfold rtcpMessage_transform, forwardRewrite, qualifyingSR.
  destruct (packetType p =? 200)%Z; cbn [negb orb andb]; [|done].
  destruct (length p <? 8) eqn:Hlen.
  - apply Nat.ltb_lt in Hlen.
    by replace (8 <=? length p) with false by (symmetry; apply Nat.leb_gt; lia).
  - apply Nat.ltb_ge in Hlen.
    replace (8 <=? length p) with true by (symmetry; apply Nat.leb_le; lia).
    destruct (readUInt32BE_is_Ok p 4) as [ssrc Hread]; [lia|].
    unfold learn, word32_at. rewrite Hread.
    destruct (incomingSSRC st) eqn:Hin; rewrite ?bind_Ok; simpl;
      rewrite writeUInt32BE_ok by (done || lia); by rewrite bind_Ok.
Qed.

Lemma applyTransform_forward ps : ∀ kept st,
  uint32 (outgoingSSRC st) →
  applyTransform rtcpMessage_transform ps kept st
  = Ok (kept ++ map (forwardRewrite (outgoingSSRC st)) ps, forwardLearn st ps).
Proof.
  induction ps as [|p ps IH]; intros kept st Hssrc; simpl.
  - by rewrite app_nil_r.
  - rewrite rtcpMessage_transform_spec, bind_Ok by done. simpl.
    rewrite IH.
    + rewrite <- app_assoc. simpl. unfold forwardLearn. simpl.
      by destruct (qualifyingSR p); rewrite ?learn_outgoingSSRC.
    + by destruct (qualifyingSR p); rewrite ?learn_outgoingSSRC.
Qed.

(** What [rtcpMessage] does to any datagram: nothing when the decode finds
    no sub-packet, else one [sendOut] of the rewritten sub-packets. *)
Lemma rtcpMessage_spec msg st :
  uint32 (outgoingSSRC st) →
  rtcpMessage msg st =
    match subpackets msg with
    | [] => Ok st
    | ps => sendOut (mjoin (map (forwardRewrite (outgoingSSRC st)) ps))
                    (forwardLearn st ps)
    end.
Proof.
  intros Hssrc. unfold rtcpMessage.
  rewrite processRTCPMessage_applyTransform, applyTransform_forward by done.
  rewrite !bind_Ok. simpl.
  by destruct (subpackets msg).
Qed.

Lemma subpackets_mjoin ps : Forall wellFormed ps → subpackets (mjoin ps) = ps.
Proof.
  induction 1 as [|p ps [H4 Hd] Hwf IH].
  - by apply subpackets_stop; left; simpl; lia.
  - simpl. rewrite subpackets_step.
    + rewrite declaredLength_app, <- Hd by done.
      by rewrite take_app_length, drop_app_length, IH.
    + rewrite length_app. lia.
    + rewrite declaredLength_app, length_app by done. lia.
Qed.







(** ** The learned SSRC *)

Lemma word32_at_is_Some buf off :
  off + 4 ≤ length buf → ∃ v, word32_at buf off = Some v.
Proof.
  intros Hlen. unfold word32_at.
  destruct (readUInt32BE_is_Ok buf off Hlen) as [v ->]. eauto.
Qed.

Lemma learn_incomingSSRC v st :
  incomingSSRC (learn v st) =
    match incomingSSRC st with
    | Some s => Some s
    | None => v
    end.
Proof. unfold learn. by destruct (incomingSSRC st) eqn:Hin. Qed.

Lemma forwardLearn_incomingSSRC ps : ∀ st,
  incomingSSRC (forwardLearn st ps) =
    match incomingSSRC st with
    | Some s => Some s
    | None =>
        match filter (λ p, qualifyingSR p = true) ps with
        | p :: _ => word32_at p 4
        | [] => None
        end
    end.
Proof.
  induction ps as [|p ps IH]; intros st.
  - simpl. by destruct (incomingSSRC st).
  - change (forwardLearn st (p :: ps))
      with (forwardLearn (if qualifyingSR p then learn (word32_at p 4) st else st) ps).
    rewrite IH.
    destruct (qualifyingSR p) eqn:Hq.
    + rewrite filter_cons_True by done.
      rewrite learn_incomingSSRC.
      destruct (incomingSSRC st); [done|].
      destruct (word32_at_is_Some p 4) as [v ->]; [|done].
      unfold qualifyingSR in Hq. apply andb_true_iff in Hq as [_ Hlen].
      apply Nat.leb_le in Hlen. lia.
    + rewrite filter_cons_False by (by rewrite Hq).
      done.
Qed.

Lemma handle_spec d st :
  operational st → Forall is_byte (payload d) →
  ∃ st', handle d st = Ok st' ∧ operational st'
         ∧ incomingSSRC st' =
             match incomingSSRC st with
             | Some s => Some s
             | None => observation d
             end.
Proof.
  intros Hop Hbytes. destruct d as [msg|msg]; cbn [handle payload observation] in *.
  - destruct (12 <=? length msg) eqn:Hlen.
    + apply Nat.leb_le in Hlen.
      exists (delivered (rtpOutput msg st) (learn (word32_at msg 4) st)).
      rewrite rtpMessage_long by (done || apply Hop).
      split; [by apply sendOut_operational, learn_operational|].
      split; [by apply delivered_operational, learn_operational|].
      by rewrite delivered_incomingSSRC, learn_incomingSSRC.
    + apply Nat.leb_gt in Hlen.
      exists (delivered msg st).
      rewrite rtpMessage_short by done.
      split; [by apply sendOut_operational|].
      split; [by apply delivered_operational|].
      rewrite delivered_incomingSSRC. by destruct (incomingSSRC st).
  - rewrite rtcpMessage_spec by apply Hop.
    destruct (subpackets msg) as [|p ps] eqn:Hps.
    + exists st. split; [done|]. split; [done|].
      rewrite filter_nil. by destruct (incomingSSRC st).
    + eexists. split; [by apply sendOut_operational, forwardLearn_operational|].
      split; [by apply delivered_operational, forwardLearn_operational|].
      by rewrite delivered_incomingSSRC, forwardLearn_incomingSSRC.
Qed.

Lemma handleAll_spec ds : ∀ st,
  operational st → Forall (λ d, Forall is_byte (payload d)) ds →
  ∃ st', handleAll ds st = Ok st' ∧ operational st'
         ∧ incomingSSRC st' =
             match incomingSSRC st with
             | Some s => Some s
             | None => firstObservation ds
             end.
Proof.
  induction ds as [|d ds IH]; intros st Hop Hbytes.
  - exists st. split; [done|]. split; [done|]. simpl. by destruct (incomingSSRC st).
  - apply Forall_cons in Hbytes as [Hd Hds].
    destruct (handle_spec d st Hop Hd) as (st1 & Hrun1 & Hop1 & Hin1).
    destruct (IH st1 Hop1 Hds) as (st' & Hrun & Hop' & Hin).
    exists st'. simpl. rewrite Hrun1, bind_Ok.
    split; [done|]. split; [done|].
    rewrite Hin, Hin1.
    destruct (incomingSSRC st); [done|]. by destruct (observation d).
Qed.

Lemma handleAll_app ds1 : ∀ ds2 st,
  handleAll (ds1 ++ ds2) st = (st1 ← handleAll ds1 st; handleAll ds2 st1).
Proof.
  induction ds1 as [|d ds1 IH]; intros ds2 st; simpl; [done|].
  destruct (handle d st); [|done..].
  rewrite !bind_Ok. apply IH.
Qed.

(** C2.  The learned incoming SSRC is written at most once.  Whatever
    datagrams arrive on the incoming RTP and RTCP sockets of an operational
    instance, every handler returns, and afterwards the learned SSRC is the
    one held before if there was one, and otherwise the first observation
    the datagrams offer: bytes 4-7 of an RTP packet of at least 12 bytes, or
    bytes 4-7 of a Sender Report (type 200) of at least 8 bytes in an RTCP
    datagram.  Once a value is held, no later datagram changes it. *)
Theorem incomingSSRC_write_once (ds : list Inbound) (st : RTPProxy) :
  operational st → Forall (λ d, Forall is_byte (payload d)) ds →
  ∃ st',
    handleAll ds st = Ok st'
    ∧ incomingSSRC st' =
        match incomingSSRC st with
        | Some s => Some s
        | None => firstObservation ds
        end
    ∧ (∀ ds1 ds2 st1 s,
         ds = ds1 ++ ds2 → handleAll ds1 st = Ok st1 →
         incomingSSRC st1 = Some s → incomingSSRC st' = Some s).
Proof.
  intros Hop Hbytes.
  destruct (handleAll_spec ds st Hop Hbytes) as (st' & Hrun & _ & Hin).
  exists st'. split; [done|]. split; [done|].
  intros ds1 ds2 st1 s -> Hrun1 Hs.
  apply Forall_app in Hbytes as [Hb1 Hb2].
  destruct (handleAll_spec ds1 st Hop Hb1) as (st1' & Hrun1' & Hop1 & _).
  rewrite Hrun1 in Hrun1'. injection Hrun1' as <-.
  destruct (handleAll_spec ds2 st1 Hop1 Hb2) as (st2 & Hrun2 & _ & Hin2).
  rewrite handleAll_app, Hrun1, bind_Ok, Hrun2 in Hrun.
  injection Hrun as <-. by rewrite Hin2, Hs.
Qed.

Lemma sample_traffic_bytes : Forall (λ d, Forall is_byte (payload d)) sample_traffic.
Proof.
  repeat (constructor;
          [repeat (constructor; [unfold is_byte; lia|]); constructor|]).
  constructor.
Qed.

Lemma incomingSSRC_write_once_witness :
  ∃ st',
    handleAll sample_traffic demo_proxy = Ok st'
    ∧ incomingSSRC st' =
        match incomingSSRC demo_proxy with
        | Some s => Some s
        | None => firstObservation sample_traffic
        end
    ∧ (∀ ds1 ds2 st1 s,
         sample_traffic = ds1 ++ ds2 → handleAll ds1 demo_proxy = Ok st1 →
         incomingSSRC st1 = Some s → incomingSSRC st' = Some s).
Proof.
  apply (incomingSSRC_write_once sample_traffic demo_proxy).
  - exact demo_operational.
  - exact sample_traffic_bytes.
Defined.

Example sample_traffic_learns_from_SR :
  incomingSSRC <$> (match handleAll sample_traffic demo_proxy with Ok s => Some s | _ => None end)
  = Some (Some 0x22222222%Z).
Proof. vm_compute. reflexivity. Qed.

(** ** The reply RTCP path *)

Lemma rtcpReply_transform_learned writeNonNumber p st s :
  incomingSSRC st = Some s → uint32 s →
  rtcpReply_transform writeNonNumber (packetType p) p st
  = Ok (Some (replyRewrite s p), st).
Proof.
  intros Hin Hs. unfold rtcpReply_transform, replyRewrite, qualifyingRR.
  destruct (packetType p =? 201)%Z; cbn [negb orb andb]; [|done].
  destruct (length p <? 12) eqn:Hlen.
  - apply Nat.ltb_lt in Hlen.
    by replace (12 <=? length p) with false by (symmetry; apply Nat.leb_gt; lia).
  - apply Nat.ltb_ge in Hlen.
    replace (12 <=? length p) with true by (symmetry; apply Nat.leb_le; lia).
    rewrite Hin, writeUInt32BE_ok by (done || lia). by rewrite bind_Ok.
Qed.

Lemma applyTransform_reply writeNonNumber s ps : ∀ kept st,
  incomingSSRC st = Some s → uint32 s →
  applyTransform (rtcpReply_transform writeNonNumber) ps kept st
  = Ok (kept ++ map (replyRewrite s) ps, st).
Proof.
  induction ps as [|p ps IH]; intros kept st Hin Hs; simpl.
  - by rewrite app_nil_r.
  - rewrite (rtcpReply_transform_learned _ _ _ s), bind_Ok by done. simpl.
    rewrite IH by done. by rewrite <- app_assoc.
Qed.

(** With a learned SSRC the reply path is one [sendOut] of the sub-packets,
    Receiver Reports rewritten, and does not depend on [writeNonNumber]. *)
Lemma rtcpReply_learned writeNonNumber msg st s :
  incomingSSRC st = Some s → uint32 s →
  rtcpReply writeNonNumber msg st =
    match subpackets msg with
    | [] => Ok st
    | ps => sendOut (mjoin (map (replyRewrite s) ps)) st
    end.
Proof.
  intros Hin Hs. unfold rtcpReply.
  rewrite processRTCPMessage_applyTransform, (applyTransform_reply _ s) by done.
  rewrite !bind_Ok. simpl. by destruct (subpackets msg).
Qed.




Example sample_rr_reply_learned :
  events <$> (match rtcpReply node_writeNonNumber sample_rr learned_proxy
              with Ok s => Some s | _ => None end)
  = Some [EvSend 2 (patch 8 [0x22; 0x22; 0x22; 0x22]%Z sample_rr) 5004 "192.0.2.1"].
Proof. vm_compute. reflexivity. Qed.

(** ** Dropped sub-packets and the absence of output *)

Lemma applyTransform_events transform :
  (∀ pt p s r, transform pt p s = Ok r → events r.2 = events s) →
  ∀ ps kept st r,
    applyTransform transform ps kept st = Ok r → events r.2 = events st.
Proof.
  intros Hstep. induction ps as [|p ps IH]; intros kept st r; simpl.
  - by intros [= <-].
  - destruct (transform (packetType p) p st) as [r1| |] eqn:H1; [|done..].
    rewrite bind_Ok. intros Hrest.
    rewrite (IH _ _ _ Hrest). by apply (Hstep _ _ _ _ H1).
Qed.

Lemma processRTCPMessage_events transform msg st r :
  (∀ pt p s r, transform pt p s = Ok r → events r.2 = events s) →
  processRTCPMessage msg transform st = Ok r → events r.2 = events st.
Proof.
  intros Hstep. rewrite processRTCPMessage_applyTransform.
  destruct (applyTransform _ _ _ _) as [r1| |] eqn:H1; [|done..].
  rewrite bind_Ok. intros [= <-]. simpl.
  by apply (applyTransform_events transform Hstep _ _ _ _ H1).
Qed.

Lemma rtcpMessage_transform_events pt p s r :
  rtcpMessage_transform pt p s = Ok r → events r.2 = events s.
Proof.
  unfold rtcpMessage_transform.
  destruct (_ || _); [by intros [= <-]|].
  destruct (incomingSSRC s).
  - rewrite bind_Ok.
    destruct (Buf.writeUInt32BE _ _ _); [|done..]. by intros [= <-].
  - destruct (Buf.readUInt32BE p 4); [|done..]. rewrite !bind_Ok.
    destruct (Buf.writeUInt32BE _ _ _); [|done..]. by intros [= <-].
Qed.

Lemma rtcpReply_transform_events w pt p s r :
  rtcpReply_transform w pt p s = Ok r → events r.2 = events s.
Proof.
  unfold rtcpReply_transform.
  destruct (_ || _); [by intros [= <-]|].
  destruct (match incomingSSRC s with Some _ => _ | None => _ end); [|done..].
  by intros [= <-].
Qed.

(** C5, as the code has it.  A falsy transform result drops the
    sub-packet; a buffer, empty or not, is kept.  When no sub-packet is
    kept the codec produces no output, and the two relays then return
    without any call on the datagram layer; when at least one sub-packet is
    kept the output is the concatenation of the kept ones, and the relays
    hand every output to [sendOut]. *)
Theorem processRTCPMessage_no_output_iff_none_kept
    (transform : Transform) (msg : Buffer) (st : RTPProxy)
    (kept : list Buffer) (st' : RTPProxy) :
  applyTransform transform (subpackets msg) [] st = Ok (kept, st') →
  (kept = [] → processRTCPMessage msg transform st = Ok (None, st'))
  ∧ (kept ≠ [] → processRTCPMessage msg transform st = Ok (Some (mjoin kept), st'))
  ∧ (∀ m s0 s1,
       processRTCPMessage m rtcpMessage_transform s0 = Ok (None, s1) →
       rtcpMessage m s0 = Ok s1 ∧ events s1 = events s0)
  ∧ (∀ w m s0 s1,
       processRTCPMessage m (rtcpReply_transform w) s0 = Ok (None, s1) →
       rtcpReply w m s0 = Ok s1 ∧ events s1 = events s0)
  ∧ (∀ m s0 s1 out,
       processRTCPMessage m rtcpMessage_transform s0 = Ok (Some out, s1) →
       rtcpMessage m s0 = sendOut out s1)
  ∧ (∀ w m s0 s1 out,
       processRTCPMessage m (rtcpReply_transform w) s0 = Ok (Some out, s1) →
       rtcpReply w m s0 = sendOut out s1).
Proof.
  intros Hkept.
  pose proof (processRTCPMessage_applyTransform msg transform st) as Hrun.
  rewrite Hkept, bind_Ok in Hrun. simpl in Hrun.
  split; [by intros ->|].
  split; [by destruct kept|].
  split; [|split; [|split]].
  - intros m s0 s1 Hnone. split.
    + unfold rtcpMessage. by rewrite Hnone.
    + by apply (processRTCPMessage_events _ _ _ _ rtcpMessage_transform_events Hnone).
  - intros w m s0 s1 Hnone. split.
    + unfold rtcpReply. by rewrite Hnone.
    + by apply (processRTCPMessage_events _ _ _ _
                  (rtcpReply_transform_events w) Hnone).
  - intros m s0 s1 out Hsome. unfold rtcpMessage. by rewrite Hsome.
  - intros w m s0 s1 out Hsome. unfold rtcpReply. by rewrite Hsome.
Qed.

Lemma processRTCPMessage_no_output_iff_none_kept_witness :
  processRTCPMessage scenarioE_msg dropAll demo_proxy = Ok (None, demo_proxy).
Proof.
  apply (processRTCPMessage_no_output_iff_none_kept
           dropAll scenarioE_msg demo_proxy [] demo_proxy).
  - vm_compute. reflexivity.
  - reflexivity.
Defined.

(** Every sub-packet of scenario E rewritten to the empty buffer: both are
    kept, the codec outputs an empty buffer rather than nothing, and
    [sendOut] puts an empty payload on the wire. *)
Lemma emptied_subpackets_are_forwarded :
  applyTransform emptyAll (subpackets scenarioE_msg) [] demo_proxy
  = Ok ([[]; []], demo_proxy)
  ∧ processRTCPMessage scenarioE_msg emptyAll demo_proxy = Ok (Some [], demo_proxy)
  ∧ processRTCPMessage scenarioE_msg emptyAll demo_proxy ≠ Ok (None, demo_proxy)
  ∧ sendOut [] demo_proxy = Ok (log [EvSend 2 [] 5004 "192.0.2.1"] demo_proxy).
Proof.
  split; [vm_compute; reflexivity|].
  split; [vm_compute; reflexivity|].
  split; [vm_compute; discriminate|].
  vm_compute. reflexivity.
Qed.

(** The two transforms of the class keep every sub-packet, so on the relay
    paths the codec has no output only when the decode finds no
    sub-packet. *)
Example no_subpacket_no_send :
  rtcpMessage [0x80; 200; 0]%Z demo_proxy = Ok demo_proxy
  ∧ rtcpMessage [0x80; 200; 0; 6; 1; 2; 3; 4]%Z demo_proxy = Ok demo_proxy.
Proof. split; vm_compute; reflexivity. Qed.

(** ** Teardown *)

Lemma closeIfSet_running s :
  (∀ x, s = Some x → sock_running x = true) →
  closeIfSet s = Ok (stopped <$> s, (EvClose ∘ sock_id) <$> option_list s).
Proof.
  intros Hrun. destruct s as [x|]; [|done].
  unfold closeIfSet, Dgram.close. by rewrite (Hrun x eq_refl).
Qed.

Lemma closeIfSet_stopped s :
  closeIfSet (stopped <$> s) =
    match s with
    | Some _ => Throw ERR_SOCKET_DGRAM_NOT_RUNNING
    | None => Ok (None, [])
    end.
Proof. by destruct s. Qed.

Lemma destroy_running st :
  (∀ s, s ∈ owned st → sock_running s = true) →
  destroy st =
    Ok (log ((EvClose ∘ sock_id) <$> owned st)
          (set_sockets (stopped <$> incomingRTPSocket st)
                       (stopped <$> incomingRTCPSocket st)
                       (stopped <$> outgoingSocket st) st)).
Proof.
  intros Hrun. unfold destroy, owned in *.
  rewrite !closeIfSet_running.
  - rewrite !bind_Ok. simpl. by rewrite !fmap_app.
  - intros x Hx. apply Hrun. rewrite Hx, !elem_of_app. simpl.
    rewrite !elem_of_cons. auto.
  - intros x Hx. apply Hrun. rewrite Hx, !elem_of_app. simpl.
    rewrite !elem_of_cons. auto.
  - intros x Hx. apply Hrun. rewrite Hx, !elem_of_app. simpl.
    rewrite !elem_of_cons. auto.
Qed.

(** C8, as the code has it.  One call of [destroy] on an instance whose set
    sockets are all still running, whichever of the three fields are set:
    it does not throw, closes every set socket once, in the order incoming
    RTP, incoming RTCP, outgoing, and leaves the handles, now stopped, in
    their fields.  It is not idempotent: a further call succeeds (and closes
    nothing) only when no socket was set; otherwise it calls [close] on a
    stopped socket and throws. *)
Theorem destroy_closes_once_not_idempotent (st : RTPProxy) :
  (∀ s, s ∈ owned st → sock_running s = true) →
  ∃ st',
    destroy st = Ok st'
    ∧ events st' = events st ++ ((EvClose ∘ sock_id) <$> owned st)
    ∧ owned st' = stopped <$> owned st
    ∧ (owned st = [] → ∃ st'', destroy st' = Ok st'' ∧ events st'' = events st)
    ∧ (owned st ≠ [] → destroy st' = Throw ERR_SOCKET_DGRAM_NOT_RUNNING).
Proof.
  intros Hrun. eexists. split; [by apply destroy_running|].
  split; [done|].
  split.
  { unfold owned. simpl. rewrite !fmap_app.
    by destruct (incomingRTPSocket st), (incomingRTCPSocket st), (outgoingSocket st). }
  unfold owned, destroy. simpl. rewrite !closeIfSet_stopped.
  destruct (incomingRTPSocket st); [by split|].
  destruct (incomingRTCPSocket st); [by split|].
  destruct (outgoingSocket st); [by split|].
  split; [|done].
  intros _. eexists. split; [done|]. simpl. by rewrite !app_nil_r.
Qed.

Lemma destroy_closes_once_not_idempotent_witness :
  ∃ st',
    destroy half_setup_proxy = Ok st'
    ∧ events st' = events half_setup_proxy
                   ++ ((EvClose ∘ sock_id) <$> owned half_setup_proxy)
    ∧ owned st' = stopped <$> owned half_setup_proxy
    ∧ (owned half_setup_proxy = [] →
         ∃ st'', destroy st' = Ok st'' ∧ events st'' = events half_setup_proxy)
    ∧ (owned half_setup_proxy ≠ [] →
         destroy st' = Throw ERR_SOCKET_DGRAM_NOT_RUNNING).
Proof.
  apply (destroy_closes_once_not_idempotent half_setup_proxy).
  intros s Hs. unfold owned, half_setup_proxy in Hs. simpl in Hs.
  apply elem_of_cons in Hs as [-> | Hs]; [reflexivity|].
  apply elem_of_cons in Hs as [-> | Hs]; [reflexivity|].
  destruct (proj1 (elem_of_nil s) Hs).
Defined.

(** A second [destroy] of an instance that was set up throws. *)
Lemma destroy_twice_throws :
  ∃ st',
    destroy demo_proxy = Ok st'
    ∧ events st' = [EvClose 0; EvClose 1; EvClose 2]
    ∧ destroy st' = Throw ERR_SOCKET_DGRAM_NOT_RUNNING.
Proof.
  eexists. split; [vm_compute; reflexivity|].
  split; vm_compute; reflexivity.
Qed.

(** ** The adjacent pair *)

Lemma attempt_verdict first ok1 ok2 :
  attempt first ok1 ok2 = if ok1 && ok2 then Resolve else Retry.
Proof. by destruct first, ok1, ok2. Qed.

Lemma nextPairPort_range p :
  (10000 ≤ p ≤ 65534)%Z → (10000 ≤ nextPairPort p ≤ 65534)%Z.
Proof. unfold nextPairPort. case_match; lia. Qed.

Lemma log_log e1 e2 st : log e2 (log e1 st) = log (e1 ++ e2) st.
Proof. unfold log. simpl. by rewrite app_assoc. Qed.

Lemma fresh_log e st : fresh (log e st) = fresh st + length e.
Proof. unfold fresh, log. simpl. by rewrite length_app. Qed.

Lemma log_set_startingPort e q st :
  log e (set_startingPort q st) = set_startingPort q (log e st).
Proof. reflexivity. Qed.

Lemma fresh_retry q e st :
  fresh (set_startingPort q (log e st)) = fresh st + length e.
Proof. apply fresh_log. Qed.

Section AllocatorFacts.

Variable bindOk : nat → Z → bool.
Variable ephemeral : nat → Z.
Variable socket1First : nat → bool.

(** A port in range reaches the system as it is. *)
Lemma boundPort_in_range id port :
  (1 ≤ port ≤ 65535)%Z → boundPort ephemeral id port = port.
Proof.
  intros Hp. unfold boundPort, Dgram.bind. cbv zeta.
  rewrite Z.mod_small by lia.
  by replace (port =? 0)%Z with false by lia.
Qed.

(** Port 65536 reaches the system as port 0: the system chooses. *)
Lemma boundPort_65536 id : boundPort ephemeral id 65536 = ephemeral id.
Proof. reflexivity. Qed.

(** One turn of [retry], whatever the candidate: both sockets are created
    and asked to bind; the pair is returned when both succeed, else the
    candidate moves on, both sockets are closed and the next turn
    starts. *)
Lemma createSocketPair_turn fuel st :
  createSocketPair bindOk ephemeral socket1First (S fuel) st =
    let id := fresh st in
    let p := startingPort st in
    if bindOk id p && bindOk (S id) (p + 1)%Z
    then Ok (mkSocket id (Some (boundPort ephemeral id p)) true,
             mkSocket (S id) (Some (boundPort ephemeral (S id) (p + 1))) true,
             log (wonAttempt id p) st)
    else createSocketPair bindOk ephemeral socket1First fuel
           (set_startingPort (nextPairPort p) (log (failedAttempt id p) st)).
Proof.
  cbn [createSocketPair]. cbv zeta.
  rewrite !fresh_log. cbn [length startingPort log].
  rewrite attempt_verdict, Nat.add_1_r.
  destruct (bindOk (fresh st) (startingPort st)) eqn:Hok1;
    destruct (bindOk (S (fresh st)) (startingPort st + 1)) eqn:Hok2;
    cbn [andb Dgram.close sock_running sock_id sock_port];
    rewrite ?bind_Ok; cbn [fst snd].
  - by rewrite !log_log.
  - unfold nextPairPort. destruct (startingPort st =? 65534)%Z;
      by rewrite !log_set_startingPort, !log_log.
  - unfold nextPairPort. destruct (startingPort st =? 65534)%Z;
      by rewrite !log_set_startingPort, !log_log.
  - unfold nextPairPort. destruct (startingPort st =? 65534)%Z;
      by rewrite !log_set_startingPort, !log_log.
Qed.

(** The same turn for a candidate in range: the sockets are bound to the
    ports they asked for. *)
Lemma createSocketPair_step fuel st :
  (10000 ≤ startingPort st ≤ 65534)%Z →
  createSocketPair bindOk ephemeral socket1First (S fuel) st =
    let id := fresh st in
    let p := startingPort st in
    if bindOk id p && bindOk (S id) (p + 1)%Z
    then Ok (mkSocket id (Some p) true, mkSocket (S id) (Some (p + 1)%Z) true,
             log (wonAttempt id p) st)
    else createSocketPair bindOk ephemeral socket1First fuel
           (set_startingPort (nextPairPort p) (log (failedAttempt id p) st)).
Proof.
  intros Hp. rewrite createSocketPair_turn. cbv zeta.
  by rewrite !boundPort_in_range by lia.
Qed.

Lemma createSocketPair_trace : ∀ fuel st socket1 socket2 st',
  (10000 ≤ startingPort st ≤ 65534)%Z →
  createSocketPair bindOk ephemeral socket1First fuel st
    = Ok (socket1, socket2, st') →
  ∃ failures,
    failures < fuel
    ∧ startingPort st' = candidate failures (startingPort st)
    ∧ socket1 = mkSocket (fresh st + 6 * failures) (Some (startingPort st')) true
    ∧ socket2 = mkSocket (S (fresh st + 6 * failures))
                         (Some (startingPort st' + 1)%Z) true
    ∧ bothBind bindOk (fresh st + 6 * failures) (startingPort st') = true
    ∧ events st' = events st ++ pairTrace failures (fresh st) (startingPort st)
    ∧ (∀ k, k < failures →
         bothBind bindOk (fresh st + 6 * k) (candidate k (startingPort st))
         = false).
Proof.
  induction fuel as [|fuel IH]; intros st socket1 socket2 st' Hp; [done|].
  rewrite createSocketPair_step by done. cbv zeta.
  destruct (bindOk (fresh st) (startingPort st)
            && bindOk (S (fresh st)) (startingPort st + 1)) eqn:Hboth.
  - intros [= <- <- <-]. exists 0.
    rewrite Nat.mul_0_r, Nat.add_0_r. simpl.
    repeat split; try done; try lia.
  - intros Hrun.
    apply IH in Hrun as (n & Hn & Hport & -> & -> & Hok & Hev & Hfail);
      [|by apply nextPairPort_range].
    rewrite !fresh_retry in *. cbn [length failedAttempt] in *.
    cbn [startingPort set_startingPort events log] in *.
    exists (S n).
    replace (fresh st + 6 * S n) with (fresh st + 6 + 6 * n) by lia.
    split; [lia|]. split; [done|]. split; [done|]. split; [done|].
    split; [done|].
    split; [by rewrite Hev, <- app_assoc|].
    intros [|k] Hk.
    + by rewrite Nat.mul_0_r, Nat.add_0_r.
    + replace (fresh st + 6 * S k) with (fresh st + 6 + 6 * k) by lia.
      apply Hfail. lia.
Qed.

(** The converse: as soon as the turns suffice to reach the first
    candidate at which both ports bind, the promise is resolved. *)
Lemma createSocketPair_resolves : ∀ failures fuel st,
  (10000 ≤ startingPort st ≤ 65534)%Z →
  failures < fuel →
  (∀ k, k < failures →
     bothBind bindOk (fresh st + 6 * k) (candidate k (startingPort st)) = false) →
  bothBind bindOk (fresh st + 6 * failures)
           (candidate failures (startingPort st)) = true →
  ∃ st',
    createSocketPair bindOk ephemeral socket1First fuel st
    = Ok (mkSocket (fresh st + 6 * failures) (Some (startingPort st')) true,
          mkSocket (S (fresh st + 6 * failures))
                   (Some (startingPort st' + 1)%Z) true, st')
    ∧ startingPort st' = candidate failures (startingPort st)
    ∧ events st' = events st ++ pairTrace failures (fresh st) (startingPort st).
Proof.
  induction failures as [|n IH]; intros fuel st Hp Hfuel Hfail Hok;
    (destruct fuel as [|fuel]; [lia|]);
    rewrite createSocketPair_step by done; cbv zeta.
  - rewrite Nat.mul_0_r, Nat.add_0_r in *. simpl in Hok.
    unfold bothBind in Hok. rewrite Hok.
    exists (log (wonAttempt (fresh st) (startingPort st)) st).
    split; [reflexivity|]. done.
  - pose proof (Hfail 0 ltac:(lia)) as H0.
    rewrite Nat.mul_0_r, Nat.add_0_r in H0. simpl in H0.
    unfold bothBind in H0. rewrite H0.
    destruct (IH fuel (set_startingPort (nextPairPort (startingPort st))
                         (log (failedAttempt (fresh st) (startingPort st)) st)))
      as (st' & Hrun & Hport & Hev).
    + by apply nextPairPort_range.
    + lia.
    + intros k Hk. rewrite fresh_retry. cbn [length failedAttempt].
      replace (fresh st + 6 + 6 * k) with (fresh st + 6 * S k) by lia.
      apply (Hfail (S k)). lia.
    + rewrite fresh_retry. cbn [length failedAttempt].
      by replace (fresh st + 6 + 6 * n) with (fresh st + 6 * S n) by lia.
    + rewrite !fresh_retry in *. cbn [length failedAttempt] in *.
      cbn [startingPort set_startingPort events log] in *.
      exists st'.
      replace (fresh st + 6 * S n) with (fresh st + 6 + 6 * n) by lia.
      split; [done|]. split; [done|].
      by rewrite Hev, <- app_assoc.
Qed.

End AllocatorFacts.


Lemma nextPairPort_wraps :
  nextPairPort 65534 = 10000%Z ∧ ∀ p, p ≠ 65534%Z → nextPairPort p = (p + 1)%Z.
Proof.
  split; [done|]. intros p Hp. unfold nextPairPort.
  by rewrite (proj2 (Z.eqb_neq _ _) Hp).
Qed.



(** Scenario C: ports 10000 and 10001 free, the pair binds exactly those.
    Scenario D: port 10000 taken, the pair binds 10001 and 10002 after
    closing both sockets of the first attempt. *)
Example scenarioC_run :
  (λ r, (sock_port r.1.1, sock_port r.1.2, events r.2)) <$>
    (match createSocketPair scenarioC_bindOk no_ephemeral in_order 3 fresh_proxy
     with Ok r => Some r | _ => None end)
  = Some (Some 10000%Z, Some 10001%Z,
          [EvCreate 0; EvCreate 1; EvBind 0 10000; EvBind 1 10001]).
Proof. vm_compute. reflexivity. Qed.

Example scenarioD_run :
  (λ r, (sock_port r.1.1, sock_port r.1.2, events r.2)) <$>
    (match createSocketPair scenarioD_bindOk no_ephemeral in_order 3 fresh_proxy
     with Ok r => Some r | _ => None end)
  = Some (Some 10001%Z, Some 10002%Z,
          [EvCreate 0; EvCreate 1; EvBind 0 10000; EvBind 1 10001;
           EvClose 0; EvClose 1;
           EvCreate 6; EvCreate 7; EvBind 6 10001; EvBind 7 10002]).
Proof. vm_compute. reflexivity. Qed.

(** ** What is learned is a 32-bit value *)

Lemma subpackets_aux_bytes : ∀ fuel rest,
  Forall is_byte rest → Forall (Forall is_byte) (subpackets_aux fuel rest).
Proof.
  induction fuel as [|fuel IH]; intros rest Hbytes; simpl; [constructor|].
  repeat case_match; try constructor.
  - by apply Forall_take.
  - by apply IH, Forall_drop.
Qed.

Lemma word32_at_uint32 buf off v :
  Forall is_byte buf → word32_at buf off = Some v → uint32 v.
Proof.
  intros Hbytes. unfold word32_at.
  destruct (Buf.readUInt32BE buf off) eqn:Hread; [|done..].
  intros [= <-]. by eapply readUInt32BE_uint32.
Qed.

Lemma observation_uint32 d v :
  Forall is_byte (payload d) → observation d = Some v → uint32 v.
Proof.
  destruct d as [msg|msg]; cbn [payload observation]; intros Hbytes.
  - case_match; [|done]. by apply word32_at_uint32.
  - destruct (filter _ _) as [|p ps] eqn:Hf; [done|].
    apply word32_at_uint32.
    assert (Hp : p ∈ filter (λ p, qualifyingSR p = true) (subpackets msg))
      by (rewrite Hf; apply list_elem_of_here).
    apply list_elem_of_filter in Hp as [_ Hp].
    pose proof (subpackets_aux_bytes (length msg) msg Hbytes) as Hall.
    rewrite Forall_forall in Hall. by apply Hall.
Qed.

Lemma firstObservation_uint32 ds v :
  Forall (λ d, Forall is_byte (payload d)) ds →
  firstObservation ds = Some v → uint32 v.
Proof.
  induction 1 as [|d ds Hd Hds IH]; simpl; [done|].
  destruct (observation d) as [w|] eqn:Hobs; [|done].
  intros [= <-]. by eapply observation_uint32.
Qed.

(** On an operational instance fed with byte buffers, a learned SSRC is
    always a 32-bit value: the precondition on the value in the reply-path
    rewrite is met as soon as one has been learned. *)
Lemma learned_ssrc_uint32 ds st st' s :
  operational st → Forall (λ d, Forall is_byte (payload d)) ds →
  incomingSSRC st = None →
  handleAll ds st = Ok st' → incomingSSRC st' = Some s → uint32 s.
Proof.
  intros Hop Hbytes Hnone Hrun Hs.
  destruct (handleAll_spec ds st Hop Hbytes) as (st2 & Hrun2 & _ & Hin).
  rewrite Hrun in Hrun2. injection Hrun2 as <-.
  rewrite Hnone, Hs in Hin. by eapply firstObservation_uint32.
Qed.

(** ** Setup *)

Lemma createSocket_keeps bindOk ephemeral : ∀ fuel st s st',
  createSocket bindOk ephemeral fuel st = Ok (s, st') →
  incomingRTPSocket st' = incomingRTPSocket st
  ∧ incomingRTCPSocket st' = incomingRTCPSocket st
  ∧ incomingSSRC st' = incomingSSRC st
  ∧ sock_running s = true.
Proof.
  induction fuel as [|fuel IH]; intros st s st'; [done|].
  cbn [createSocket]. cbv zeta. cbn [startingPort log].
  destruct (bindOk (fresh st) (startingPort st)).
  - by intros [= <- <-].
  - cbn [Dgram.close sock_running]. rewrite bind_Ok.
    intros Hrun. apply IH in Hrun as (H1 & H2 & H3 & H4).
    by destruct (startingPort st =? 65535)%Z.
Qed.

(** After [setup] the incoming RTP and RTCP sockets sit on adjacent ports,
    whatever the environment answered along the way. *)
Lemma setup_adjacent_ports bindOk ephemeral socket1First fuel st st' :
  (10000 ≤ startingPort st ≤ 65534)%Z →
  setup bindOk ephemeral socket1First fuel st = Ok st' →
  ∃ rtp rtcp out p,
    incomingRTPSocket st' = Some rtp ∧ incomingRTCPSocket st' = Some rtcp
    ∧ outgoingSocket st' = Some out
    ∧ sock_port rtp = Some p ∧ sock_port rtcp = Some (p + 1)%Z
    ∧ sock_running rtp = true ∧ sock_running rtcp = true
    ∧ sock_running out = true.
Proof.
  intros Hp. unfold setup.
  destruct (createSocketPair _ _ _ fuel st) as [[[s1 s2] st1]| |] eqn:Hpair;
    [|done..].
  rewrite bind_Ok. cbn [fst snd].
  destruct (createSocket _ _ fuel _) as [[s3 st2]| |] eqn:Hout; [|done..].
  rewrite bind_Ok. cbn [fst snd]. intros [= <-].
  apply createSocketPair_trace in Hpair as (n & _ & _ & -> & -> & _); [|done].
  apply createSocket_keeps in Hout as (H1 & H2 & _ & H4).
  cbn in H1, H2.
  eexists _, _, s3, (startingPort st1). cbn. rewrite H1, H2.
  by repeat split.
Qed.

(** * The rest of the class *)

(** ** The single socket *)

Lemma nextPort_range p :
  (10000 ≤ p ≤ 65535)%Z → (10000 ≤ nextPort p ≤ 65535)%Z.
Proof. unfold nextPort. case_match; lia. Qed.

Lemma candidate1_range : ∀ k p,
  (10000 ≤ p ≤ 65535)%Z → (10000 ≤ candidate1 k p ≤ 65535)%Z.
Proof.
  induction k as [|k IH]; intros p Hp; simpl; [done|].
  by apply IH, nextPort_range.
Qed.

Lemma candidate_range : ∀ k p,
  (10000 ≤ p ≤ 65534)%Z → (10000 ≤ candidate k p ≤ 65534)%Z.
Proof.
  induction k as [|k IH]; intros p Hp; simpl; [done|].
  by apply IH, nextPairPort_range.
Qed.

Section SingleSocketFacts.

Variable bindOk : nat → Z → bool.
Variable ephemeral : nat → Z.

(** One turn of [retry] of [createSocket] for a candidate in range. *)
Lemma createSocket_step fuel st :
  (10000 ≤ startingPort st ≤ 65535)%Z →
  createSocket bindOk ephemeral (S fuel) st =
    let id := fresh st in
    let p := startingPort st in
    if bindOk id p
    then Ok (mkSocket id (Some p) true, log (wonBind id p) st)
    else createSocket bindOk ephemeral fuel
           (set_startingPort (nextPort p) (log (failedBind id p) st)).
Proof.
  intros Hp. cbn [createSocket]. cbv zeta. cbn [startingPort log].
  rewrite boundPort_in_range by lia.
  destruct (bindOk (fresh st) (startingPort st)).
  - by rewrite log_log.
  - cbn [Dgram.close sock_running sock_id sock_port]. rewrite bind_Ok.
    cbn [fst snd]. unfold nextPort.
    destruct (startingPort st =? 65535)%Z;
      by rewrite !log_set_startingPort, !log_log.
Qed.

Lemma createSocket_trace : ∀ fuel st s st',
  (10000 ≤ startingPort st ≤ 65535)%Z →
  createSocket bindOk ephemeral fuel st = Ok (s, st') →
  ∃ failures,
    failures < fuel
    ∧ startingPort st' = candidate1 failures (startingPort st)
    ∧ s = mkSocket (fresh st + 3 * failures) (Some (startingPort st')) true
    ∧ bindOk (fresh st + 3 * failures) (startingPort st') = true
    ∧ events st' = events st ++ socketTrace failures (fresh st) (startingPort st)
    ∧ (∀ k, k < failures →
         bindOk (fresh st + 3 * k) (candidate1 k (startingPort st)) = false).
Proof.
  induction fuel as [|fuel IH]; intros st s st' Hp; [done|].
  rewrite createSocket_step by done. cbv zeta.
  destruct (bindOk (fresh st) (startingPort st)) eqn:Hok.
  - intros [= <- <-]. exists 0.
    rewrite Nat.mul_0_r, Nat.add_0_r. simpl.
    repeat split; try done; try lia.
  - intros Hrun.
    apply IH in Hrun as (n & Hn & Hport & -> & Hwon & Hev & Hfail);
      [|by apply nextPort_range].
    rewrite !fresh_retry in *. cbn [length failedBind] in *.
    cbn [startingPort set_startingPort events log] in *.
    exists (S n).
    replace (fresh st + 3 * S n) with (fresh st + 3 + 3 * n) by lia.
    split; [lia|]. split; [done|]. split; [done|]. split; [done|].
    split; [by rewrite Hev, <- app_assoc|].
    intros [|k] Hk.
    + by rewrite Nat.mul_0_r, Nat.add_0_r.
    + replace (fresh st + 3 * S k) with (fresh st + 3 + 3 * k) by lia.
      apply Hfail. lia.
Qed.

Lemma createSocket_resolves : ∀ failures fuel st,
  (10000 ≤ startingPort st ≤ 65535)%Z →
  failures < fuel →
  (∀ k, k < failures →
     bindOk (fresh st + 3 * k) (candidate1 k (startingPort st)) = false) →
  bindOk (fresh st + 3 * failures) (candidate1 failures (startingPort st)) = true →
  ∃ st',
    createSocket bindOk ephemeral fuel st
    = Ok (mkSocket (fresh st + 3 * failures) (Some (startingPort st')) true, st')
    ∧ startingPort st' = candidate1 failures (startingPort st)
    ∧ events st' = events st ++ socketTrace failures (fresh st) (startingPort st).
Proof.
  induction failures as [|n IH]; intros fuel st Hp Hfuel Hfail Hok;
    (destruct fuel as [|fuel]; [lia|]);
    rewrite createSocket_step by done; cbv zeta.
  - rewrite Nat.mul_0_r, Nat.add_0_r in *. simpl in Hok. rewrite Hok.
    exists (log (wonBind (fresh st) (startingPort st)) st).
    split; [reflexivity|]. done.
  - pose proof (Hfail 0 ltac:(lia)) as H0.
    rewrite Nat.mul_0_r, Nat.add_0_r in H0. simpl in H0. rewrite H0.
    destruct (IH fuel (set_startingPort (nextPort (startingPort st))
                         (log (failedBind (fresh st) (startingPort st)) st)))
      as (st' & Hrun & Hport & Hev).
    + by apply nextPort_range.
    + lia.
    + intros k Hk. rewrite fresh_retry. cbn [length failedBind].
      replace (fresh st + 3 + 3 * k) with (fresh st + 3 * S k) by lia.
      apply (Hfail (S k)). lia.
    + rewrite fresh_retry. cbn [length failedBind].
      by replace (fresh st + 3 + 3 * n) with (fresh st + 3 * S n) by lia.
    + rewrite !fresh_retry in *. cbn [length failedBind] in *.
      cbn [startingPort set_startingPort events log] in *.
      exists st'.
      replace (fresh st + 3 * S n) with (fresh st + 3 + 3 * n) by lia.
      split; [done|]. split; [done|].
      by rewrite Hev, <- app_assoc.
Qed.

End SingleSocketFacts.

Lemma socketTrace_close : ∀ n id p i,
  EvClose i ∈ socketTrace n id p → i < id + 3 * n.
Proof.
  induction n as [|n IH]; intros id p i Hin; cbn [socketTrace] in Hin.
  - unfold wonBind in Hin. rewrite !elem_of_cons, elem_of_nil in Hin.
    destruct Hin as [|[|[]]]; done.
  - apply elem_of_app in Hin as [Hin|Hin].
    + unfold failedBind in Hin. rewrite !elem_of_cons, elem_of_nil in Hin.
      destruct Hin as [|[|[[= ->]|[]]]]; try done; lia.
    + apply IH in Hin. lia.
Qed.

(** X1.  Every run of [createSocket] that resolves, from a candidate cursor
    between the base port 10000 and 65535, where the allocator itself
    keeps it, returns a running socket bound to the port
    the cursor ends on.  Every candidate tried before had its bind fail, and
    the log shows for each of them the socket created, the bind requested
    and the socket closed before the next socket is created; the candidates
    follow [nextPort], which steps by one and goes from 65535 back to
    10000; the returned socket is never closed. *)
Theorem createSocket_retries_until_bound
    (bindOk : nat → Z → bool) (ephemeral : nat → Z)
    (fuel : nat) (st st' : RTPProxy) (socket : Socket) :
  (10000 ≤ startingPort st ≤ 65535)%Z →
  createSocket bindOk ephemeral fuel st = Ok (socket, st') →
  ∃ (failures : nat) (p : Z),
    p = candidate1 failures (startingPort st)
    ∧ (10000 ≤ p ≤ 65535)%Z
    ∧ startingPort st' = p
    ∧ sock_port socket = Some p ∧ sock_running socket = true
    ∧ sock_id socket = fresh st + 3 * failures
    ∧ bindOk (sock_id socket) p = true
    ∧ events st' = events st ++ socketTrace failures (fresh st) (startingPort st)
    ∧ (∀ k, k < failures →
         bindOk (fresh st + 3 * k) (candidate1 k (startingPort st)) = false)
    ∧ (EvClose (sock_id socket) ∉ socketTrace failures (fresh st) (startingPort st)).
Proof.
  intros Hp Hrun.
  apply createSocket_trace in Hrun
    as (n & _ & Hport & -> & Hok & Hev & Hfail); [|done].
  exists n, (startingPort st'). simpl.
  split; [done|].
  split; [rewrite Hport; apply candidate1_range; lia|].
  repeat (split; [done|]).
  intros Hin. apply socketTrace_close in Hin. lia.
Qed.

Lemma createSocket_retries_until_bound_witness :
  ∃ (failures : nat) (p : Z),
    p = candidate1 failures 10000
    ∧ (10000 ≤ p ≤ 65535)%Z
    ∧ 10002%Z = p
    ∧ Some 10002%Z = Some p ∧ true = true
    ∧ 6 = 0 + 3 * failures
    ∧ staticEnv pairTaken_free 6 p = true
    ∧ failedBind 0 10000 ++ failedBind 3 10001 ++ wonBind 6 10002
      = [] ++ socketTrace failures 0 10000
    ∧ (∀ k, k < failures →
         staticEnv pairTaken_free (0 + 3 * k) (candidate1 k 10000) = false)
    ∧ (EvClose 6 ∉ socketTrace failures 0 10000).
Proof.
  apply (createSocket_retries_until_bound (staticEnv pairTaken_free) no_ephemeral
           5 fresh_proxy
           (set_startingPort 10002
              (log (failedBind 0 10000 ++ failedBind 3 10001 ++ wonBind 6 10002)
                 fresh_proxy))
           (mkSocket 6 (Some 10002%Z) true)).
  - simpl. lia.
  - vm_compute. reflexivity.
Defined.

(** ** Allocation succeeds when a port is free *)

Lemma first_true (P : nat → bool) : ∀ n,
  (∃ m, m < n ∧ P m = true ∧ ∀ k, k < m → P k = false)
  ∨ (∀ k, k < n → P k = false).
Proof.
  induction n as [|n [(m & Hm & Hpm & Hleast)|Hnone]].
  - right. intros k Hk. lia.
  - left. exists m. split; [lia|done].
  - destruct (P n) eqn:Hpn.
    + left. exists n. split; [lia|done].
    + right. intros k Hk.
      destruct (decide (k = n)) as [->|Hne]; [done|]. apply Hnone. lia.
Qed.

Lemma candidate_closed_form : ∀ k p,
  (10000 ≤ p ≤ 65534)%Z →
  candidate k p = (10000 + (p - 10000 + Z.of_nat k) `mod` 55535)%Z.
Proof.
  induction k as [|k IH]; intros p Hp.
  - simpl. rewrite Z.mod_small by lia. lia.
  - cbn [candidate]. rewrite IH by (by apply nextPairPort_range).
    f_equal. unfold nextPairPort.
    destruct (p =? 65534)%Z eqn:Hwrap.
    + apply Z.eqb_eq in Hwrap. subst p.
      replace (65534 - 10000 + Z.of_nat (S k))%Z
        with (10000 - 10000 + Z.of_nat k + 1 * 55535)%Z by lia.
      by rewrite Z_mod_plus_full.
    + f_equal. lia.
Qed.

Lemma candidate1_closed_form : ∀ k p,
  (10000 ≤ p ≤ 65535)%Z →
  candidate1 k p = (10000 + (p - 10000 + Z.of_nat k) `mod` 55536)%Z.
Proof.
  induction k as [|k IH]; intros p Hp.
  - simpl. rewrite Z.mod_small by lia. lia.
  - cbn [candidate1]. rewrite IH by (by apply nextPort_range).
    f_equal. unfold nextPort.
    destruct (p =? 65535)%Z eqn:Hwrap.
    + apply Z.eqb_eq in Hwrap. subst p.
      replace (65535 - 10000 + Z.of_nat (S k))%Z
        with (10000 - 10000 + Z.of_nat k + 1 * 55536)%Z by lia.
      by rewrite Z_mod_plus_full.
    + f_equal. lia.
Qed.

(** The scan reaches every candidate within one lap. *)
Lemma candidate_reaches p q :
  (10000 ≤ p ≤ 65534)%Z → (10000 ≤ q ≤ 65534)%Z →
  ∃ k, k < Z.to_nat 55535 ∧ candidate k p = q.
Proof.
  intros Hp Hq. exists (Z.to_nat ((q - p) `mod` 55535)).
  pose proof (Z.mod_pos_bound (q - p) 55535 ltac:(lia)).
  split; [lia|].
  rewrite candidate_closed_form, Z2Nat.id by lia.
  rewrite Zplus_mod_idemp_r.
  replace (p - 10000 + (q - p))%Z with (q - 10000)%Z by lia.
  rewrite Z.mod_small by lia. lia.
Qed.

Lemma candidate1_reaches p q :
  (10000 ≤ p ≤ 65535)%Z → (10000 ≤ q ≤ 65535)%Z →
  ∃ k, k < Z.to_nat 55536 ∧ candidate1 k p = q.
Proof.
  intros Hp Hq. exists (Z.to_nat ((q - p) `mod` 55536)).
  pose proof (Z.mod_pos_bound (q - p) 55536 ltac:(lia)).
  split; [lia|].
  rewrite candidate1_closed_form, Z2Nat.id by lia.
  rewrite Zplus_mod_idemp_r.
  replace (p - 10000 + (q - p))%Z with (q - 10000)%Z by lia.
  rewrite Z.mod_small by lia. lia.
Qed.

(** X2.  When the ports that are free do not change and some adjacent pair
    [q], [q + 1] with [q] between 10000 and 65534 is free, [createSocketPair]
    resolves within one lap of the candidates (55535 turns) from any cursor
    in that range, on the first pair in scan order both of whose ports are
    free. *)
Theorem createSocketPair_finds_free_pair
    (free : Z → bool) (ephemeral : nat → Z) (socket1First : nat → bool)
    (st : RTPProxy) (q : Z) :
  (10000 ≤ startingPort st ≤ 65534)%Z →
  (10000 ≤ q ≤ 65534)%Z → free q = true → free (q + 1)%Z = true →
  ∃ socket1 socket2 st' failures p,
    createSocketPair (staticEnv free) ephemeral socket1First
      (Z.to_nat 55535) st = Ok (socket1, socket2, st')
    ∧ p = candidate failures (startingPort st)
    ∧ sock_port socket1 = Some p ∧ sock_port socket2 = Some (p + 1)%Z
    ∧ free p = true ∧ free (p + 1)%Z = true
    ∧ startingPort st' = p
    ∧ (∀ k, k < failures →
         free (candidate k (startingPort st))
         && free (candidate k (startingPort st) + 1)%Z = false).
Proof.
  intros Hp Hq Hfree1 Hfree2.
  destruct (candidate_reaches (startingPort st) q Hp Hq) as (k0 & Hk0 & Hcand).
  pose (P := λ k, free (candidate k (startingPort st))
                  && free (candidate k (startingPort st) + 1)%Z).
  destruct (first_true P (S k0)) as [(m & Hm & Hpm & Hleast)|Hnone].
  2: { specialize (Hnone k0 ltac:(lia)). unfold P in Hnone.
       by rewrite Hcand, Hfree1, Hfree2 in Hnone. }
  destruct (createSocketPair_resolves (staticEnv free) ephemeral socket1First
              m (Z.to_nat 55535) st Hp ltac:(lia)) as (st' & Hrun & Hport & _).
  { intros k Hk. apply (Hleast k Hk). }
  { exact Hpm. }
  unfold P in Hpm. apply andb_true_iff in Hpm as [Hpm1 Hpm2].
  eexists _, _, st', m, (candidate m (startingPort st)).
  split; [exact Hrun|]. rewrite Hport. simpl.
  repeat (split; [done|]).
  intros k Hk. apply (Hleast k Hk).
Qed.

Lemma createSocketPair_finds_free_pair_witness :
  ∃ socket1 socket2 st' failures p,
    createSocketPair (staticEnv scenarioD_free) no_ephemeral in_order
      (Z.to_nat 55535) fresh_proxy = Ok (socket1, socket2, st')
    ∧ p = candidate failures (startingPort fresh_proxy)
    ∧ sock_port socket1 = Some p ∧ sock_port socket2 = Some (p + 1)%Z
    ∧ scenarioD_free p = true ∧ scenarioD_free (p + 1)%Z = true
    ∧ startingPort st' = p
    ∧ (∀ k, k < failures →
         scenarioD_free (candidate k (startingPort fresh_proxy))
         && scenarioD_free (candidate k (startingPort fresh_proxy) + 1)%Z = false).
Proof.
  apply (createSocketPair_finds_free_pair scenarioD_free no_ephemeral in_order
           fresh_proxy 20000).
  - simpl. lia.
  - lia.
  - reflexivity.
  - reflexivity.
Defined.

(** X3.  When the ports that are free do not change and some port between
    10000 and 65535 is free, [createSocket] resolves within one lap of the
    candidates (55536 turns) from any cursor in that range, on the first
    free port in scan order. *)
Theorem createSocket_finds_free_port
    (free : Z → bool) (ephemeral : nat → Z) (st : RTPProxy) (q : Z) :
  (10000 ≤ startingPort st ≤ 65535)%Z →
  (10000 ≤ q ≤ 65535)%Z → free q = true →
  ∃ socket st' failures p,
    createSocket (staticEnv free) ephemeral (Z.to_nat 55536) st = Ok (socket, st')
    ∧ p = candidate1 failures (startingPort st)
    ∧ sock_port socket = Some p ∧ free p = true
    ∧ startingPort st' = p
    ∧ (∀ k, k < failures → free (candidate1 k (startingPort st)) = false).
Proof.
  intros Hp Hq Hfree.
  destruct (candidate1_reaches (startingPort st) q Hp Hq) as (k0 & Hk0 & Hcand).
  pose (P := λ k, free (candidate1 k (startingPort st))).
  destruct (first_true P (S k0)) as [(m & Hm & Hpm & Hleast)|Hnone].
  2: { specialize (Hnone k0 ltac:(lia)). unfold P in Hnone.
       by rewrite Hcand, Hfree in Hnone. }
  destruct (createSocket_resolves (staticEnv free) ephemeral
              m (Z.to_nat 55536) st Hp ltac:(lia)) as (st' & Hrun & Hport & _).
  { intros k Hk. apply (Hleast k Hk). }
  { exact Hpm. }
  eexists _, st', m, (candidate1 m (startingPort st)).
  split; [exact Hrun|]. rewrite Hport. simpl.
  repeat (split; [done|]).
  intros k Hk. apply (Hleast k Hk).
Qed.

Lemma createSocket_finds_free_port_witness :
  ∃ socket st' failures p,
    createSocket (staticEnv pairTaken_free) no_ephemeral (Z.to_nat 55536) fresh_proxy
    = Ok (socket, st')
    ∧ p = candidate1 failures (startingPort fresh_proxy)
    ∧ sock_port socket = Some p ∧ pairTaken_free p = true
    ∧ startingPort st' = p
    ∧ (∀ k, k < failures →
         pairTaken_free (candidate1 k (startingPort fresh_proxy)) = false).
Proof.
  apply (createSocket_finds_free_port pairTaken_free no_ephemeral fresh_proxy 65535).
  - simpl. lia.
  - lia.
  - reflexivity.
Defined.

(** ** The two cursors do not wrap at the same port *)

(** X4.  [createSocket] wraps its cursor after 65535, [createSocketPair]
    after 65534.  When [createSocket] has bound its socket to port 65535 the
    cursor stays there, and a later [createSocketPair] on the instance asks
    for ports 65535 and 65536.  [bind] takes 65536 as 0, so the system
    chooses the second port: if both binds succeed the allocation resolves
    at once with a pair that is not on adjacent ports. *)
Theorem createSocketPair_after_last_port_not_adjacent
    (bindOk bindOk' : nat → Z → bool) (ephemeral ephemeral' : nat → Z)
    (socket1First : nat → bool) (fuel fuel' : nat)
    (st st' : RTPProxy) (socket : Socket) :
  (10000 ≤ startingPort st ≤ 65535)%Z →
  createSocket bindOk ephemeral fuel st = Ok (socket, st') →
  sock_port socket = Some 65535%Z →
  bindOk' (fresh st') 65535%Z = true →
  bindOk' (S (fresh st')) 65536%Z = true →
  (1 ≤ ephemeral' (S (fresh st')) ≤ 65535)%Z →
  startingPort st' = 65535%Z
  ∧ ∃ socket1 socket2 st'',
      createSocketPair bindOk' ephemeral' socket1First (S fuel') st'
      = Ok (socket1, socket2, st'')
      ∧ sock_port socket1 = Some 65535%Z
      ∧ sock_port socket2 = Some (ephemeral' (S (fresh st')))
      ∧ sock_port socket2 ≠ Some 65536%Z
      ∧ sock_running socket1 = true ∧ sock_running socket2 = true
      ∧ startingPort st'' = 65535%Z.
Proof.
  intros Hp Hrun Hport Hok1 Hok2 Heph.
  apply createSocket_trace in Hrun as (n & _ & _ & -> & _); [|done].
  simpl in Hport. injection Hport as Hport.
  split; [done|].
  rewrite createSocketPair_turn. cbv zeta. rewrite Hport.
  change (65535 + 1)%Z with 65536%Z. rewrite Hok1, Hok2. cbn [andb].
  do 3 eexists. split; [reflexivity|]. cbn [sock_port sock_running].
  rewrite boundPort_in_range, boundPort_65536 by lia.
  repeat split; try done.
  intros [= Heq]. lia.
Qed.

Lemma createSocketPair_after_last_port_not_adjacent_witness :
  startingPort
    (set_startingPort 65535
       (log (failedBind 0 65534 ++ wonBind 3 65535) late_proxy)) = 65535%Z
  ∧ ∃ socket1 socket2 st'',
      createSocketPair scenarioC_bindOk system_port in_order 3
        (set_startingPort 65535
           (log (failedBind 0 65534 ++ wonBind 3 65535) late_proxy))
      = Ok (socket1, socket2, st'')
      ∧ sock_port socket1 = Some 65535%Z
      ∧ sock_port socket2
        = Some (system_port
                  (S (fresh (set_startingPort 65535
                               (log (failedBind 0 65534 ++ wonBind 3 65535)
                                  late_proxy)))))
      ∧ sock_port socket2 ≠ Some 65536%Z
      ∧ sock_running socket1 = true ∧ sock_running socket2 = true
      ∧ startingPort st'' = 65535%Z.
Proof.
  apply (createSocketPair_after_last_port_not_adjacent
           (staticEnv lastPort_free) scenarioC_bindOk no_ephemeral system_port
           in_order 4 2 late_proxy
           (set_startingPort 65535
              (log (failedBind 0 65534 ++ wonBind 3 65535) late_proxy))
           (mkSocket 3 (Some 65535%Z) true)).
  - simpl. lia.
  - vm_compute. reflexivity.
  - reflexivity.
  - reflexivity.
  - reflexivity.
  - unfold system_port. lia.
Defined.

(** The pair the instance gets there: port 65535 and the port the system
    chose. *)
Example last_port_pair_run :
  (λ r, (sock_port r.1.1, sock_port r.1.2)) <$>
    (match createSocketPair scenarioC_bindOk system_port in_order 3
             (set_startingPort 65535 fresh_proxy)
     with Ok r => Some r | _ => None end)
  = Some (Some 65535%Z, Some 49152%Z).
Proof. vm_compute. reflexivity. Qed.

(** ** Setup and the local ports *)

Lemma createSocket_wiring bindOk ephemeral : ∀ fuel st s st',
  createSocket bindOk ephemeral fuel st = Ok (s, st') →
  outgoingAddress st' = outgoingAddress st
  ∧ outgoingPort st' = outgoingPort st
  ∧ outgoingSSRC st' = outgoingSSRC st
  ∧ outgoingPayloadType st' = outgoingPayloadType st
  ∧ incomingPayloadType st' = incomingPayloadType st
  ∧ disabled st' = disabled st.
Proof.
  induction fuel as [|fuel IH]; intros st s st'; [done|].
  cbn [createSocket]. cbv zeta. cbn [startingPort log].
  destruct (bindOk (fresh st) (startingPort st)).
  - by intros [= <- <-].
  - cbn [Dgram.close sock_running]. rewrite bind_Ok.
    intros Hrun. apply IH in Hrun.
    by destruct (startingPort st =? 65535)%Z.
Qed.

Lemma createSocketPair_wiring bindOk ephemeral socket1First : ∀ fuel st r,
  createSocketPair bindOk ephemeral socket1First fuel st = Ok r →
  outgoingAddress r.2 = outgoingAddress st
  ∧ outgoingPort r.2 = outgoingPort st
  ∧ outgoingSSRC r.2 = outgoingSSRC st
  ∧ outgoingPayloadType r.2 = outgoingPayloadType st
  ∧ incomingPayloadType r.2 = incomingPayloadType st
  ∧ disabled r.2 = disabled st
  ∧ incomingSSRC r.2 = incomingSSRC st.
Proof.
  induction fuel as [|fuel IH]; intros st r; [done|].
  cbn [createSocketPair]. cbv zeta. cbn [startingPort log].
  rewrite attempt_verdict.
  destruct (_ && _).
  - by intros [= <-].
  - cbn [Dgram.close sock_running]. rewrite !bind_Ok.
    intros Hrun. apply IH in Hrun.
    by destruct (startingPort st =? 65534)%Z.
Qed.

(** X5.  When [setup] completes, from a cursor between 10000 and 65534,
    the three port accessors return: [incomingRTCPPort] is [incomingRTPPort]
    plus one, both ports and the outgoing local port lie between 10000 and
    65535, the three sockets are running, and the configuration given to
    the constructor (peer, SSRC, payload types, the disabled flag) and the
    learned SSRC are what they were. *)
Theorem setup_binds_adjacent_ports
    (bindOk : nat → Z → bool) (ephemeral : nat → Z) (socket1First : nat → bool)
    (unboundAddress : Socket → Result Z)
    (fuel : nat) (st st' : RTPProxy) :
  (10000 ≤ startingPort st ≤ 65534)%Z →
  setup bindOk ephemeral socket1First fuel st = Ok st' →
  ∃ p q,
    incomingRTPPort unboundAddress st' = Ok p
    ∧ incomingRTCPPort unboundAddress st' = Ok (p + 1)%Z
    ∧ outgoingLocalPort unboundAddress st' = Ok q
    ∧ (10000 ≤ p ≤ 65534)%Z ∧ (10000 ≤ q ≤ 65535)%Z
    ∧ (∀ s, s ∈ owned st' → sock_running s = true)
    ∧ length (owned st') = 3
    ∧ outgoingAddress st' = outgoingAddress st
    ∧ outgoingPort st' = outgoingPort st
    ∧ outgoingSSRC st' = outgoingSSRC st
    ∧ outgoingPayloadType st' = outgoingPayloadType st
    ∧ incomingPayloadType st' = incomingPayloadType st
    ∧ disabled st' = disabled st
    ∧ incomingSSRC st' = incomingSSRC st.
Proof.
  intros Hp. unfold setup.
  destruct (createSocketPair _ _ _ fuel st) as [[[s1 s2] st1]| |] eqn:Hpair;
    [|done..].
  rewrite bind_Ok. cbn [fst snd].
  destruct (createSocket _ _ fuel _) as [[s3 st2]| |] eqn:Hout; [|done..].
  rewrite bind_Ok. cbn [fst snd]. intros [= <-].
  pose proof (createSocketPair_wiring _ _ _ _ _ _ Hpair) as Hw1.
  apply createSocketPair_trace in Hpair as (n & _ & Hport1 & -> & -> & _); [|done].
  pose proof (createSocket_keeps _ _ _ _ _ _ Hout) as (H1 & H2 & H3 & _).
  pose proof (createSocket_wiring _ _ _ _ _ _ Hout) as Hw2.
  pose proof (candidate_range n _ Hp) as Hrange1. rewrite <- Hport1 in Hrange1.
  apply createSocket_trace in Hout as (m & _ & Hport2 & -> & _);
    [|cbn; lia].
  pose proof (candidate1_range m (startingPort st1) ltac:(lia)) as Hrange2.
  cbn in Hport2. rewrite <- Hport2 in Hrange2.
  cbn in H1, H2, H3, Hw1, Hw2.
  exists (startingPort st1), (startingPort st2).
  unfold incomingRTPPort, incomingRTCPPort, outgoingLocalPort, owned.
  cbn. rewrite H1, H2. cbn.
  repeat (split; [done|]).
  split.
  { intros s. rewrite !elem_of_cons, elem_of_nil.
    by intros [->|[->|[->|[]]]]. }
  split; [done|].
  destruct Hw1 as (? & ? & ? & ? & ? & ? & ?), Hw2 as (? & ? & ? & ? & ? & ?).
  repeat split; congruence.
Qed.

Lemma setup_binds_adjacent_ports_witness :
  ∃ p q,
    incomingRTPPort refuse_unbound setup_done_proxy = Ok p
    ∧ incomingRTCPPort refuse_unbound setup_done_proxy = Ok (p + 1)%Z
    ∧ outgoingLocalPort refuse_unbound setup_done_proxy = Ok q
    ∧ (10000 ≤ p ≤ 65534)%Z ∧ (10000 ≤ q ≤ 65535)%Z.
Proof.
  destruct (setup_binds_adjacent_ports crowded_bindOk no_ephemeral in_order
              refuse_unbound 4 fresh_proxy setup_done_proxy)
    as (p & q & H1 & H2 & H3 & H4 & H5 & _).
  - simpl. lia.
  - vm_compute. reflexivity.
  - exists p, q. auto.
Defined.

Example setup_done_ports :
  incomingRTPPort refuse_unbound setup_done_proxy = Ok 10001%Z
  ∧ incomingRTCPPort refuse_unbound setup_done_proxy = Ok 10002%Z
  ∧ outgoingLocalPort refuse_unbound setup_done_proxy = Ok 10003%Z
  ∧ incomingRTPPort refuse_unbound fresh_proxy = Throw TypeError.
Proof. repeat split. Qed.

(** ** No socket is left open *)

Lemma createdIds_app tr1 tr2 :
  createdIds (tr1 ++ tr2) = createdIds tr1 ++ createdIds tr2.
Proof. apply omap_app. Qed.

Lemma closedIds_app tr1 tr2 :
  closedIds (tr1 ++ tr2) = closedIds tr1 ++ closedIds tr2.
Proof. apply omap_app. Qed.

Lemma length_pairTrace : ∀ n id p, length (pairTrace n id p) = 6 * n + 4.
Proof.
  induction n as [|n IH]; intros id p; [done|].
  cbn [pairTrace]. rewrite length_app, IH. simpl. lia.
Qed.

Lemma createdIds_pairTrace : ∀ n id p,
  createdIds (pairTrace n id p)
  = closedIds (pairTrace n id p) ++ [id + 6 * n; S (id + 6 * n)].
Proof.
  induction n as [|n IH]; intros id p.
  - by rewrite Nat.mul_0_r, Nat.add_0_r.
  - cbn [pairTrace]. rewrite createdIds_app, closedIds_app, IH.
    replace (id + 6 + 6 * n) with (id + 6 * S n) by lia. done.
Qed.

Lemma closedIds_pairTrace_bounds : ∀ n id p,
  Forall (λ i, id ≤ i < id + 6 * n) (closedIds (pairTrace n id p)).
Proof.
  induction n as [|n IH]; intros id p; [constructor|].
  cbn [pairTrace]. rewrite closedIds_app.
  apply Forall_app. split.
  - repeat constructor; lia.
  - eapply Forall_impl; [apply IH|]. intros i Hi. simpl in Hi. lia.
Qed.

Lemma NoDup_app_below (l1 l2 : list nat) m :
  NoDup l1 → NoDup l2 →
  Forall (λ i, i < m) l1 → Forall (λ i, m ≤ i) l2 → NoDup (l1 ++ l2).
Proof.
  intros H1 H2 Hlt Hge. apply NoDup_app. split; [done|]. split; [|done].
  intros i Hi1 Hi2.
  rewrite Forall_forall in Hlt, Hge.
  specialize (Hlt i Hi1). specialize (Hge i Hi2). lia.
Qed.

Lemma closedIds_pairTrace_NoDup : ∀ n id p,
  NoDup (closedIds (pairTrace n id p)).
Proof.
  induction n as [|n IH]; intros id p; [constructor|].
  cbn [pairTrace]. rewrite closedIds_app.
  apply (NoDup_app_below _ _ (id + 6)).
  - repeat constructor; rewrite ?elem_of_cons, ?elem_of_nil; lia.
  - apply IH.
  - repeat constructor; lia.
  - eapply Forall_impl; [apply closedIds_pairTrace_bounds|].
    intros i Hi. simpl in Hi. lia.
Qed.

Lemma createdIds_socketTrace : ∀ n id p,
  createdIds (socketTrace n id p)
  = closedIds (socketTrace n id p) ++ [id + 3 * n].
Proof.
  induction n as [|n IH]; intros id p.
  - by rewrite Nat.mul_0_r, Nat.add_0_r.
  - cbn [socketTrace]. rewrite createdIds_app, closedIds_app, IH.
    replace (id + 3 + 3 * n) with (id + 3 * S n) by lia. done.
Qed.

Lemma closedIds_socketTrace_bounds : ∀ n id p,
  Forall (λ i, id ≤ i < id + 3 * n) (closedIds (socketTrace n id p)).
Proof.
  induction n as [|n IH]; intros id p; [constructor|].
  cbn [socketTrace]. rewrite closedIds_app.
  apply Forall_app. split.
  - repeat constructor; lia.
  - eapply Forall_impl; [apply IH|]. intros i Hi. simpl in Hi. lia.
Qed.

Lemma closedIds_socketTrace_NoDup : ∀ n id p,
  NoDup (closedIds (socketTrace n id p)).
Proof.
  induction n as [|n IH]; intros id p; [constructor|].
  cbn [socketTrace]. rewrite closedIds_app.
  apply (NoDup_app_below _ _ (id + 3)).
  - repeat constructor; rewrite ?elem_of_cons, ?elem_of_nil; lia.
  - apply IH.
  - repeat constructor; lia.
  - eapply Forall_impl; [apply closedIds_socketTrace_bounds|].
    intros i Hi. simpl in Hi. lia.
Qed.

(** X6.  [setup] followed by [destroy] leaves no socket open: [destroy]
    returns, and in what the two calls added to the log no socket is created
    twice and the sockets closed are exactly the sockets created, each
    closed once, whether it was given up during the port scan or was one of
    the three the instance kept. *)
Theorem setup_then_destroy_closes_every_socket
    (bindOk : nat → Z → bool) (ephemeral : nat → Z) (socket1First : nat → bool)
    (fuel : nat) (st st1 : RTPProxy) :
  (10000 ≤ startingPort st ≤ 65534)%Z →
  setup bindOk ephemeral socket1First fuel st = Ok st1 →
  ∃ st2 tr,
    destroy st1 = Ok st2
    ∧ events st2 = events st ++ tr
    ∧ NoDup (createdIds tr)
    ∧ closedIds tr ≡ₚ createdIds tr.
Proof.
  intros Hp. unfold setup.
  destruct (createSocketPair _ _ _ fuel st) as [[[s1 s2] st1p]| |] eqn:Hpair;
    [|done..].
  rewrite bind_Ok. cbn [fst snd].
  set (stx := set_sockets (Some s1) (Some s2) (outgoingSocket st1p) st1p).
  destruct (createSocket _ _ fuel stx) as [[s3 st1s]| |] eqn:Hout; [|done..].
  rewrite bind_Ok. cbn [fst snd]. intros [= <-].
  set (stf := set_sockets (incomingRTPSocket st1s) (incomingRTCPSocket st1s)
                          (Some s3) st1s).
  apply createSocketPair_trace in Hpair
    as (n & _ & Hport1 & Hs1 & Hs2 & _ & Hev1 & _); [|done].
  pose proof (candidate_range n _ Hp) as Hrange1. rewrite <- Hport1 in Hrange1.
  assert (Hfx : fresh stx = fresh st + (6 * n + 4)).
  { unfold fresh. change (events stx) with (events st1p).
    by rewrite Hev1, length_app, length_pairTrace. }
  assert (Hpx : startingPort stx = startingPort st1p) by done.
  pose proof (createSocket_keeps _ _ _ _ _ _ Hout) as (H1 & H2 & _ & _).
  change (incomingRTPSocket stx) with (Some s1) in H1.
  change (incomingRTCPSocket stx) with (Some s2) in H2.
  apply createSocket_trace in Hout as (m & _ & _ & Hs3 & _ & Hev2 & _);
    [|rewrite Hpx; lia].
  rewrite Hfx, Hpx in Hev2. rewrite Hfx in Hs3.
  change (events stx) with (events st1p) in Hev2. rewrite Hev1 in Hev2.
  set (a := fresh st + 6 * n) in *.
  set (c := fresh st + (6 * n + 4) + 3 * m) in *.
  assert (Hown : owned stf = [s1; s2; s3]).
  { unfold owned, stf. cbn [incomingRTPSocket incomingRTCPSocket outgoingSocket
                            set_sockets]. by rewrite H1, H2. }
  assert (Hids : (EvClose ∘ sock_id) <$> owned stf
                 = [EvClose a; EvClose (S a); EvClose c]).
  { rewrite Hown, Hs1, Hs2, Hs3. done. }
  eexists.
  exists (pairTrace n (fresh st) (startingPort st)
          ++ socketTrace m (fresh st + (6 * n + 4)) (startingPort st1p)
          ++ [EvClose a; EvClose (S a); EvClose c]).
  split.
  { apply destroy_running. rewrite Hown, Hs1, Hs2, Hs3.
    intros s. rewrite !elem_of_cons, elem_of_nil.
    by intros [->|[->|[->|[]]]]. }
  split.
  { cbn [events log set_sockets]. change (events stf) with (events st1s).
    rewrite Hids, Hev2. by rewrite <- !app_assoc. }
  rewrite !createdIds_app, !closedIds_app.
  rewrite createdIds_pairTrace, createdIds_socketTrace.
  fold a c.
  change (createdIds [EvClose a; EvClose (S a); EvClose c]) with (@nil nat).
  change (closedIds [EvClose a; EvClose (S a); EvClose c]) with [a; S a; c].
  rewrite app_nil_r.
  assert (Hcp : Forall (λ i, i < a)
                  (closedIds (pairTrace n (fresh st) (startingPort st)))).
  { eapply Forall_impl; [apply closedIds_pairTrace_bounds|].
    intros i Hi. simpl in Hi. subst a. lia. }
  assert (Hcs : Forall (λ i, a + 4 ≤ i < c)
                  (closedIds (socketTrace m (fresh st + (6 * n + 4))
                                (startingPort st1p)))).
  { eapply Forall_impl; [apply closedIds_socketTrace_bounds|].
    intros i Hi. simpl in Hi. subst a c. lia. }
  assert (Hac : a + 4 ≤ c) by (subst a c; lia).
  split.
  - rewrite <- !app_assoc. cbn [app].
    apply (NoDup_app_below _ _ a).
    + apply closedIds_pairTrace_NoDup.
    + rewrite Forall_forall in Hcs.
      apply NoDup_cons. split.
      { rewrite elem_of_cons, elem_of_app, elem_of_cons, elem_of_nil.
        intros [Heq|[Hin|[Heq|[]]]]; [lia|apply Hcs in Hin; lia|lia]. }
      apply NoDup_cons. split.
      { rewrite elem_of_app, elem_of_cons, elem_of_nil.
        intros [Hin|[Heq|[]]]; [apply Hcs in Hin; lia|lia]. }
      apply (NoDup_app_below _ _ c).
      * apply closedIds_socketTrace_NoDup.
      * apply NoDup_singleton.
      * apply Forall_forall. intros i Hi. apply Hcs in Hi. lia.
      * repeat constructor.
    + exact Hcp.
    + constructor; [lia|]. constructor; [lia|].
      apply Forall_app. split.
      * eapply Forall_impl; [exact Hcs|]. intros i Hi. simpl in Hi. lia.
      * repeat constructor. lia.
  - rewrite <- !app_assoc. f_equiv. cbn [app].
    rewrite (Permutation_app_comm (closedIds (socketTrace m _ _)) [a; S a; c]).
    cbn [app]. do 2 f_equiv.
    apply Permutation_cons_append.
Qed.

Lemma setup_then_destroy_closes_every_socket_witness :
  ∃ st2 tr,
    destroy setup_done_proxy = Ok st2
    ∧ events st2 = events fresh_proxy ++ tr
    ∧ NoDup (createdIds tr)
    ∧ closedIds tr ≡ₚ createdIds tr.
Proof.
  apply (setup_then_destroy_closes_every_socket crowded_bindOk no_ephemeral
           in_order 4 fresh_proxy setup_done_proxy).
  - simpl. lia.
  - vm_compute. reflexivity.
Defined.

(** ** What the handlers and the setters leave alone *)

Lemma sameWiring_refl st : sameWiring st st.
Proof. by repeat split. Qed.

Lemma sameWiring_trans st1 st2 st3 :
  sameWiring st1 st2 → sameWiring st2 st3 → sameWiring st1 st3.
Proof.
  unfold sameWiring.
  intros (? & ? & ? & ? & ? & ? & ? & ?) (? & ? & ? & ? & ? & ? & ? & ?).
  repeat split; congruence.
Qed.

Lemma peerSend_sameWiring st st' e :
  sameWiring st st' → peerSend st' e → peerSend st e.
Proof.
  intros (_ & Ha & Hp & _ & _ & _ & _ & Hs) (s & msg & Hsock & ->).
  exists s, msg. rewrite <- Hs, <- Hp, <- Ha. done.
Qed.

Lemma quiet_refl st : quiet st st.
Proof. split; [apply sameWiring_refl|done]. Qed.

Lemma quiet_trans st1 st2 st3 : quiet st1 st2 → quiet st2 st3 → quiet st1 st3.
Proof.
  intros (Hw1 & He1 & Hs1) (Hw2 & He2 & Hs2).
  split; [by eapply sameWiring_trans|].
  split; [congruence|]. intros x Hx. by apply Hs2, Hs1.
Qed.

Lemma quiet_learn st v : incomingSSRC st = None → quiet st (set_incomingSSRC v st).
Proof. intros Hnone. split; [by repeat split|]. split; [done|]. congruence. Qed.

Lemma relayedBy_refl st : relayedBy 0 st st.
Proof.
  split; [apply sameWiring_refl|]. split; [done|].
  exists []. by rewrite app_nil_r.
Qed.

Lemma relayedBy_trans k1 k2 st1 st2 st3 :
  relayedBy k1 st1 st2 → relayedBy k2 st2 st3 → relayedBy (k1 + k2) st1 st3.
Proof.
  intros (Hw1 & Hs1 & l1 & He1 & Hl1 & Hp1) (Hw2 & Hs2 & l2 & He2 & Hl2 & Hp2).
  split; [by eapply sameWiring_trans|].
  split; [intros x Hx; by apply Hs2, Hs1|].
  exists (l1 ++ l2). split; [by rewrite He2, He1, app_assoc|].
  split; [rewrite length_app; lia|].
  apply Forall_app. split; [done|].
  eapply Forall_impl; [exact Hp2|]. intros e. by apply peerSend_sameWiring.
Qed.

Lemma quiet_relayedBy st : ∀ st', quiet st st' → relayedBy 0 st st'.
Proof.
  intros st' (Hw & He & Hs). split; [done|]. split; [done|].
  exists []. by rewrite app_nil_r.
Qed.

Lemma sendOut_relayedBy msg st st' : sendOut msg st = Ok st' → relayedBy 1 st st'.
Proof.
  unfold sendOut.
  destruct (_ || _).
  { intros [= <-]. split; [apply sameWiring_refl|]. split; [done|].
    exists []. rewrite app_nil_r. repeat split; [simpl; lia|constructor]. }
  destruct (outgoingSocket st) as [s|] eqn:Hs; [|done].
  unfold Dgram.send.
  destruct (_ || _); [done|]. destruct (sock_running s); [|done].
  rewrite bind_Ok. intros [= <-].
  split; [by repeat split|]. split; [done|].
  eexists [_]. split; [done|]. split; [done|].
  constructor; [|constructor]. by exists s, msg.
Qed.

Lemma rtpMessage_relayedBy msg st st' :
  rtpMessage msg st = Ok st' → relayedBy 1 st st'.
Proof.
  unfold rtpMessage.
  destruct (length msg <? 12); [apply sendOut_relayedBy|].
  destruct (Buf.readUInt8 msg 1) as [mpt| |]; [|done..]. rewrite bind_Ok.
  destruct (if (js_and mpt 127 =? incomingPayloadType st)%Z
            then Buf.writeUInt8 _ 1 msg else Ok msg) as [msg1| |]; [|done..].
  rewrite bind_Ok.
  destruct (incomingSSRC st) eqn:Hin.
  - rewrite bind_Ok.
    destruct (Buf.writeUInt32BE _ 8 msg1) as [msg2| |]; [|done..].
    rewrite bind_Ok. apply sendOut_relayedBy.
  - destruct (Buf.readUInt32BE msg1 4) as [ssrc| |]; [|done..].
    rewrite !bind_Ok.
    destruct (Buf.writeUInt32BE _ 8 msg1) as [msg2| |]; [|done..].
    rewrite bind_Ok. intros Hsend.
    apply sendOut_relayedBy in Hsend.
    apply (relayedBy_trans 0 1 st (set_incomingSSRC (Some ssrc) st) st');
      [|done].
    by apply quiet_relayedBy, quiet_learn.
Qed.

Lemma applyTransform_quiet transform :
  (∀ pt p s r, transform pt p s = Ok r → quiet s r.2) →
  ∀ ps kept st r, applyTransform transform ps kept st = Ok r → quiet st r.2.
Proof.
  intros Hstep. induction ps as [|p ps IH]; intros kept st r; simpl.
  - intros [= <-]. apply quiet_refl.
  - destruct (transform (packetType p) p st) as [r1| |] eqn:H1; [|done..].
    rewrite bind_Ok. intros Hrest.
    eapply quiet_trans; [by eapply Hstep|by eapply IH].
Qed.

Lemma processRTCPMessage_quiet transform msg st r :
  (∀ pt p s r, transform pt p s = Ok r → quiet s r.2) →
  processRTCPMessage msg transform st = Ok r → quiet st r.2.
Proof.
  intros Hstep. rewrite processRTCPMessage_applyTransform.
  destruct (applyTransform _ _ _ _) as [r1| |] eqn:H1; [|done..].
  rewrite bind_Ok. intros [= <-]. simpl.
  by apply (applyTransform_quiet transform Hstep _ _ _ _ H1).
Qed.

Lemma rtcpMessage_transform_quiet pt p s r :
  rtcpMessage_transform pt p s = Ok r → quiet s r.2.
Proof.
  unfold rtcpMessage_transform.
  destruct (_ || _); [intros [= <-]; apply quiet_refl|].
  destruct (incomingSSRC s) eqn:Hin.
  - rewrite bind_Ok.
    destruct (Buf.writeUInt32BE _ _ _); [|done..].
    intros [= <-]. apply quiet_refl.
  - destruct (Buf.readUInt32BE p 4); [|done..]. rewrite !bind_Ok.
    destruct (Buf.writeUInt32BE _ _ _); [|done..].
    intros [= <-]. by apply quiet_learn.
Qed.

Lemma rtcpReply_transform_quiet w pt p s r :
  rtcpReply_transform w pt p s = Ok r → quiet s r.2.
Proof.
  unfold rtcpReply_transform.
  destruct (_ || _); [intros [= <-]; apply quiet_refl|].
  destruct (match incomingSSRC s with Some _ => _ | None => _ end); [|done..].
  intros [= <-]. apply quiet_refl.
Qed.

Lemma rtcpMessage_relayedBy msg st st' :
  rtcpMessage msg st = Ok st' → relayedBy 1 st st'.
Proof.
  unfold rtcpMessage.
  destruct (processRTCPMessage msg rtcpMessage_transform st) as [r| |] eqn:Hrun;
    [|done..].
  rewrite bind_Ok.
  apply (processRTCPMessage_quiet _ _ _ _ rtcpMessage_transform_quiet) in Hrun.
  destruct r.1.
  - intros Hsend. apply sendOut_relayedBy in Hsend.
    apply (relayedBy_trans 0 1 st r.2 st'); [by apply quiet_relayedBy|done].
  - intros [= <-].
    apply (relayedBy_trans 0 1 st r.2 r.2); [by apply quiet_relayedBy|].
    destruct (relayedBy_refl r.2) as (? & ? & l & ? & ? & ?).
    split; [done|]. split; [done|]. exists l. repeat split; [done|lia|done].
Qed.

Lemma rtcpReply_relayedBy w msg st st' :
  rtcpReply w msg st = Ok st' → relayedBy 1 st st'.
Proof.
  unfold rtcpReply.
  destruct (processRTCPMessage msg (rtcpReply_transform w) st) as [r| |] eqn:Hrun;
    [|done..].
  rewrite bind_Ok.
  apply (processRTCPMessage_quiet _ _ _ _ (rtcpReply_transform_quiet w)) in Hrun.
  destruct r.1.
  - intros Hsend. apply sendOut_relayedBy in Hsend.
    apply (relayedBy_trans 0 1 st r.2 st'); [by apply quiet_relayedBy|done].
  - intros [= <-].
    apply (relayedBy_trans 0 1 st r.2 r.2); [by apply quiet_relayedBy|].
    destruct (relayedBy_refl r.2) as (? & ? & l & ? & ? & ?).
    split; [done|]. split; [done|]. exists l. repeat split; [done|lia|done].
Qed.

(** X7.  One run of a message listener or of a setter, by the time it
    returns: the cursor, the peer address and port, the outgoing SSRC, the
    disabled flag and the three socket handles are what they were; a
    learned SSRC is not replaced; and the only call made on the datagram
    layer is a send on the outgoing socket towards the fixed peer, at most
    one, and none for a setter.  Nothing is sent to the server endpoint,
    set or not. *)
Theorem handler_call_only_sends_to_peer
    (writeNonNumber : nat → Buffer → Result Buffer)
    (c : Call) (st st' : RTPProxy) :
  call writeNonNumber c st = Ok st' →
  sameWiring st st'
  ∧ (∀ x, incomingSSRC st = Some x → incomingSSRC st' = Some x)
  ∧ ∃ sends,
      events st' = events st ++ sends
      ∧ length sends ≤ (if isMessage c then 1 else 0)
      ∧ Forall (peerSend st) sends.
Proof.
  change (call writeNonNumber c st = Ok st' →
          relayedBy (if isMessage c then 1 else 0) st st').
  destruct c as [from msg| | | | |]; cbn [call isMessage];
    try (intros [= <-]; split; [by repeat split|]; split; [done|];
         exists []; by rewrite app_nil_r).
  unfold onMessage. case_bool_decide.
  - destruct from;
      [apply rtpMessage_relayedBy|apply rtcpMessage_relayedBy
      |apply rtcpReply_relayedBy].
  - intros [= <-].
    destruct (relayedBy_refl st) as (? & ? & l & ? & ? & ?).
    split; [done|]. split; [done|]. exists l. repeat split; [done|lia|done].
Qed.

Lemma handler_call_only_sends_to_peer_witness :
  sameWiring served_proxy served_proxy_after_report
  ∧ (∀ x, incomingSSRC served_proxy = Some x →
          incomingSSRC served_proxy_after_report = Some x)
  ∧ ∃ sends,
      events served_proxy_after_report = events served_proxy ++ sends
      ∧ length sends ≤ (if isMessage (Message Outgoing sample_rr) then 1 else 0)
      ∧ Forall (peerSend served_proxy) sends.
Proof.
  apply (handler_call_only_sends_to_peer node_writeNonNumber
           (Message Outgoing sample_rr) served_proxy served_proxy_after_report).
  vm_compute. reflexivity.
Defined.

(** The Receiver Report goes to the peer although a server endpoint is
    set. *)
Example served_proxy_report_goes_to_peer :
  (λ e, match e with EvSend _ _ port address => Some (port, address) | _ => None end)
    <$> events served_proxy_after_report
  = [Some (5004%Z, "192.0.2.1")].
Proof. vm_compute. reflexivity. Qed.

(** ** A disabled instance *)

Lemma call_disabled w c st :
  disabled st = true →
  ∃ st', call w c st = Ok st' ∧ disabled st' = true
         ∧ events st' = events st ∧ incomingSSRC st' = incomingSSRC st
         ∧ (isMessage c = true → st' = st).
Proof.
  intros Hdis. destruct c as [from msg| | | | |]; cbn [call isMessage].
  2-6: eexists; split; [reflexivity|]; repeat split; try done.
  exists st. unfold onMessage, onBound. rewrite Hdis.
  rewrite bool_decide_eq_false_2 by apply not_elem_of_nil.
  by repeat split.
Qed.

(** X8.  An instance constructed disabled has no message listener: any
    sequence of datagrams on its three sockets and of setter calls returns
    without error, puts nothing on the wire and learns no SSRC, and a
    sequence of datagrams alone leaves the instance exactly as it was. *)
Theorem disabled_instance_ignores_traffic
    (writeNonNumber : nat → Buffer → Result Buffer)
    (cs : list Call) (st : RTPProxy) :
  disabled st = true →
  ∃ st',
    callAll writeNonNumber cs st = Ok st'
    ∧ events st' = events st
    ∧ incomingSSRC st' = incomingSSRC st
    ∧ (Forall (λ c, isMessage c = true) cs → st' = st).
Proof.
  revert st. induction cs as [|c cs IH]; intros st Hdis.
  - by exists st.
  - destruct (call_disabled writeNonNumber c st Hdis)
      as (st1 & Hcall & Hdis1 & Hev1 & Hin1 & Hsame1).
    destruct (IH st1 Hdis1) as (st' & Hrun & Hev & Hin & Hsame).
    exists st'. cbn [callAll]. rewrite Hcall, bind_Ok.
    split; [done|]. split; [congruence|]. split; [congruence|].
    intros Hall. apply Forall_cons in Hall as [Hc Hcs].
    rewrite <- (Hsame1 Hc). by apply Hsame.
Qed.

Lemma disabled_instance_ignores_traffic_witness :
  ∃ st',
    callAll node_writeNonNumber sample_calls disabled_proxy = Ok st'
    ∧ events st' = events disabled_proxy
    ∧ incomingSSRC st' = incomingSSRC disabled_proxy
    ∧ (Forall (λ c, isMessage c = true) sample_calls → st' = disabled_proxy).
Proof.
  apply (disabled_instance_ignores_traffic node_writeNonNumber sample_calls
           disabled_proxy).
  reflexivity.
Defined.

(** ** The reply path on a whole datagram *)

Lemma replyRewrite_length ssrc p : length (replyRewrite ssrc p) = length p.
Proof.
  unfold replyRewrite. destruct (qualifyingRR p); [|done].
  apply length_patch.
Qed.

Lemma replyRewrite_outside ssrc p i :
  ¬ (8 ≤ i < 12) → replyRewrite ssrc p !! i = p !! i.
Proof.
  intros Hi. unfold replyRewrite. destruct (qualifyingRR p); [|done].
  apply lookup_patch_out. simpl. lia.
Qed.

Lemma replyRewrite_wellFormed ssrc p :
  wellFormed p → wellFormed (replyRewrite ssrc p).
Proof.
  intros [H4 Hd]. unfold wellFormed.
  rewrite replyRewrite_length. split; [done|].
  rewrite Hd. unfold declaredLength.
  by rewrite !replyRewrite_outside by lia.
Qed.

(** X9.  On the reply path, once an SSRC has been learned, a well-formed
    compound buffer is forwarded to the fixed peer as the concatenation of
    the same number of sub-packets in the same order, whatever the accessor
    does with a value that is not a number; a sub-packet that is not a
    Receiver Report (type 201) of at least 12 bytes is in the output byte
    for byte; a Receiver Report of at least 12 bytes differs from the input
    only in bytes 8-11, which hold the learned SSRC; the instance is
    otherwise unchanged. *)
Theorem rtcpReply_reply_path
    (writeNonNumber : nat → Buffer → Result Buffer)
    (ps : list Buffer) (st : RTPProxy) (ssrc : Z) :
  ps ≠ [] → Forall wellFormed ps → operational st →
  incomingSSRC st = Some ssrc → uint32 ssrc →
  let out := map (replyRewrite ssrc) ps in
  rtcpReply writeNonNumber (mjoin ps) st = sendOut (mjoin out) st
  ∧ rtcpReply writeNonNumber (mjoin ps) st = Ok (delivered (mjoin out) st)
  ∧ subpackets (mjoin out) = out
  ∧ length out = length ps
  ∧ (∀ k p, ps !! k = Some p →
       ∃ q, out !! k = Some q ∧ length q = length p
            ∧ (qualifyingRR p = false → q = p)
            ∧ (qualifyingRR p = true →
                 take 4 (drop 8 q) = Buf.be32 ssrc
                 ∧ ∀ i, ¬ (8 ≤ i < 12) → q !! i = p !! i)).
Proof.
  intros Hne Hwf Hop Hin Hs out.
  assert (Hcall : rtcpReply writeNonNumber (mjoin ps) st = sendOut (mjoin out) st).
  { rewrite (rtcpReply_learned _ _ _ ssrc) by done.
    rewrite subpackets_mjoin by done. by destruct ps. }
  split; [done|].
  split; [by rewrite Hcall; apply sendOut_operational|].
  split.
  { apply subpackets_mjoin. unfold out.
    apply Forall_map. eapply Forall_impl; [exact Hwf|].
    intros p. apply replyRewrite_wellFormed. }
  split; [apply length_map|].
  intros k p Hk. exists (replyRewrite ssrc p).
  split; [by unfold out; rewrite list_lookup_fmap, Hk|].
  split; [apply replyRewrite_length|].
  split.
  - intros Hq. unfold replyRewrite. by rewrite Hq.
  - intros Hq. split; [|intros i; apply replyRewrite_outside].
    unfold replyRewrite. rewrite Hq.
    apply (take_drop_patch (Buf.be32 ssrc) 8).
    unfold qualifyingRR in Hq. apply andb_true_iff in Hq as [_ Hlen].
    apply Nat.leb_le in Hlen. simpl. lia.
Qed.

Lemma learned_operational : operational learned_proxy.
Proof.
  constructor; simpl.
  - unfold uint32. lia.
  - intros o [=].
  - lia.
  - eexists; split; reflexivity.
Qed.

Lemma rtcpReply_reply_path_witness :
  let out := map (replyRewrite 0x22222222) [sample_rr; scenarioE_app] in
  rtcpReply node_writeNonNumber (mjoin [sample_rr; scenarioE_app]) learned_proxy
  = sendOut (mjoin out) learned_proxy
  ∧ rtcpReply node_writeNonNumber (mjoin [sample_rr; scenarioE_app]) learned_proxy
    = Ok (delivered (mjoin out) learned_proxy)
  ∧ subpackets (mjoin out) = out
  ∧ length out = length [sample_rr; scenarioE_app]
  ∧ (∀ k p, [sample_rr; scenarioE_app] !! k = Some p →
       ∃ q, out !! k = Some q ∧ length q = length p
            ∧ (qualifyingRR p = false → q = p)
            ∧ (qualifyingRR p = true →
                 take 4 (drop 8 q) = Buf.be32 0x22222222
                 ∧ ∀ i, ¬ (8 ≤ i < 12) → q !! i = p !! i)).
Proof.
  apply (rtcpReply_reply_path node_writeNonNumber [sample_rr; scenarioE_app]
           learned_proxy 0x22222222).
  - discriminate.
  - repeat constructor; try (simpl; lia); vm_compute; reflexivity.
  - exact learned_operational.
  - reflexivity.
  - unfold uint32. lia.
Defined.

(** ** Decoding and re-encoding *)

Lemma applyTransform_keepAll ps : ∀ kept st,
  applyTransform keepAll ps kept st = Ok (kept ++ ps, st).
Proof.
  induction ps as [|p ps IH]; intros kept st; simpl.
  - by rewrite app_nil_r.
  - rewrite IH. simpl. by rewrite <- app_assoc.
Qed.

Lemma subpackets_nil_iff msg :
  subpackets msg = [] ↔ length msg < 4 ∨ length msg < declaredLength msg.
Proof.
  split; [|apply subpackets_stop].
  intros Hnil.
  destruct (decide (length msg < 4 ∨ length msg < declaredLength msg))
    as [Hstop|Hgo]; [done|].
  rewrite subpackets_step in Hnil by lia. done.
Qed.

Lemma subpackets_decompose msg :
  msg = mjoin (subpackets msg) ++ trailing msg
  ∧ Forall wellFormed (subpackets msg).
Proof.
  destruct (subpackets_aux_split (length msg) msg) as (rem & Hrem & Hwf & _);
    [done|].
  rewrite (trailing_split msg rem Hrem). by rewrite <- Hrem.
Qed.

Lemma mjoin_wellFormed_length p ps :
  wellFormed p → 4 ≤ length (mjoin (p :: ps)).
Proof. intros [H4 _]. simpl. rewrite length_app. lia. Qed.

(** X10.  Decoding a buffer and re-encoding the sub-packets unchanged gives
    back the buffer without its trailing bytes: the output followed by the
    bytes the decode left over is the input; there is no output exactly when
    the buffer is shorter than 4 bytes or its first sub-packet overruns it;
    an output is never shorter than 4 bytes; and a buffer that is a
    concatenation of one or more well-formed sub-packets comes back whole. *)
Theorem processRTCPMessage_round_trip (msg : Buffer) (st : RTPProxy) :
  ∃ out,
    processRTCPMessage msg keepAll st = Ok (out, st)
    ∧ default [] out ++ trailing msg = msg
    ∧ (out = None ↔ length msg < 4 ∨ length msg < declaredLength msg)
    ∧ (∀ b, out = Some b → 4 ≤ length b)
    ∧ (∀ ps, ps ≠ [] → Forall wellFormed ps → msg = mjoin ps → out = Some msg).
Proof.
  exists (reencode (subpackets msg)).
  destruct (subpackets_decompose msg) as [Hsplit Hwf].
  split.
  { rewrite processRTCPMessage_applyTransform, applyTransform_keepAll.
    by rewrite bind_Ok. }
  split.
  { destruct (subpackets msg) as [|p ps] eqn:Hps; simpl in *; by symmetry. }
  split.
  { rewrite <- subpackets_nil_iff.
    destruct (subpackets msg); simpl; split; done. }
  split.
  { intros b. destruct (subpackets msg) as [|p ps]; [done|].
    intros [= <-]. apply Forall_cons in Hwf as [Hp _].
    by apply mjoin_wellFormed_length. }
  intros ps Hne Hps ->. rewrite subpackets_mjoin by done. by destruct ps.
Qed.

(** ** The forward path on any datagram *)




(** ** After teardown *)

Lemma closeIfSet_Ok s r :
  closeIfSet s = Ok r → r.1 = stopped <$> s.
Proof.
  destruct s as [x|]; simpl; [|by intros [= <-]].
  unfold Dgram.close. destruct (sock_running x); [|done].
  rewrite bind_Ok. by intros [= <-].
Qed.

Lemma destroy_Ok st st' :
  destroy st = Ok st' →
  outgoingSocket st' = stopped <$> outgoingSocket st
  ∧ outgoingAddress st' = outgoingAddress st
  ∧ outgoingPort st' = outgoingPort st
  ∧ outgoingSSRC st' = outgoingSSRC st
  ∧ outgoingPayloadType st' = outgoingPayloadType st
  ∧ incomingPayloadType st' = incomingPayloadType st
  ∧ incomingSSRC st' = incomingSSRC st.
Proof.
  unfold destroy.
  destruct (closeIfSet (incomingRTPSocket st)) as [r1| |]; [|done..].
  rewrite bind_Ok.
  destruct (closeIfSet (incomingRTCPSocket st)) as [r2| |]; [|done..].
  rewrite bind_Ok.
  destruct (closeIfSet (outgoingSocket st)) as [r3| |] eqn:H3; [|done..].
  rewrite bind_Ok. intros [= <-]. simpl.
  by rewrite (closeIfSet_Ok _ _ H3).
Qed.

Lemma sendOut_stopped msg st s :
  outgoingSocket st = Some (stopped s) →
  String.eqb (outgoingAddress st) "" = false →
  (1 ≤ outgoingPort st ≤ 65535)%Z →
  sendOut msg st = Throw ERR_SOCKET_DGRAM_NOT_RUNNING.
Proof.
  intros Hs Haddr Hport. unfold sendOut. rewrite Haddr, Hs.
  replace (outgoingPort st =? 0)%Z with false by lia. simpl.
  unfold Dgram.send.
  by replace ((outgoingPort st <? 1) || (65535 <? outgoingPort st))%Z
    with false by lia.
Qed.

(** X12.  An instance is not usable after [destroy]: [destroy] leaves the
    closed handles in their fields, so when the peer is configured every
    later call of [rtpMessage], for a short packet as for a full one, ends
    in the [send] on the closed outgoing socket and throws. *)
Theorem rtpMessage_after_destroy_throws (msg : Buffer) (st st' : RTPProxy) :
  operational st →
  String.eqb (outgoingAddress st) "" = false → outgoingPort st ≠ 0%Z →
  destroy st = Ok st' →
  Forall is_byte msg →
  rtpMessage msg st' = Throw ERR_SOCKET_DGRAM_NOT_RUNNING.
Proof.
  intros [Hssrc Hpt Hport (s & Hs & _)] Haddr Hp0 Hdestroy Hbytes.
  apply destroy_Ok in Hdestroy as (Hs' & Ha & Hp & Hss & Hopt & _ & _).
  rewrite Hs in Hs'. simpl in Hs'.
  destruct (decide (length msg < 12)) as [Hlen|Hlen].
  - rewrite rtpMessage_short by done.
    apply (sendOut_stopped _ _ s); [done|congruence|lia].
  - rewrite rtpMessage_long by (done || lia || congruence
                                || (intros o Ho; apply Hpt; congruence)).
    apply (sendOut_stopped _ _ s).
    + by rewrite <- Hs'; unfold learn; destruct (incomingSSRC st').
    + unfold learn. destruct (incomingSSRC st'); simpl; congruence.
    + unfold learn. destruct (incomingSSRC st'); simpl; lia.
Qed.

Lemma rtpMessage_after_destroy_throws_witness :
  rtpMessage scenarioA_msg
    (log [EvClose 0; EvClose 1; EvClose 2]
       (set_sockets (Some (stopped (demo_socket 0 10000)))
          (Some (stopped (demo_socket 1 10001)))
          (Some (stopped (demo_socket 2 10002))) scenarioA_proxy))
  = Throw ERR_SOCKET_DGRAM_NOT_RUNNING.
Proof.
  apply (rtpMessage_after_destroy_throws scenarioA_msg scenarioA_proxy).
  - exact scenarioA_operational.
  - reflexivity.
  - discriminate.
  - vm_compute. reflexivity.
  - unfold scenarioA_msg. repeat (constructor; [unfold is_byte; lia|]). constructor.
Defined.

Lemma destroy_handles st st' :
  destroy st = Ok st' →
  incomingRTPSocket st' = stopped <$> incomingRTPSocket st
  ∧ incomingRTCPSocket st' = stopped <$> incomingRTCPSocket st
  ∧ outgoingSocket st' = stopped <$> outgoingSocket st.
Proof.
  unfold destroy.
  destruct (closeIfSet (incomingRTPSocket st)) as [r1| |] eqn:H1; [|done..].
  rewrite bind_Ok.
  destruct (closeIfSet (incomingRTCPSocket st)) as [r2| |] eqn:H2; [|done..].
  rewrite bind_Ok.
  destruct (closeIfSet (outgoingSocket st)) as [r3| |] eqn:H3; [|done..].
  rewrite bind_Ok. intros [= <-]. simpl.
  by rewrite (closeIfSet_Ok _ _ H1), (closeIfSet_Ok _ _ H2), (closeIfSet_Ok _ _ H3).
Qed.

(** X13.  After [destroy] none of the three local ports can be read any
    more: each accessor throws, with the error of a closed socket where a
    socket had been set and with a [TypeError] where the field was never
    set, whatever [getsockname] would answer for an unbound socket. *)
Theorem port_accessors_after_destroy_throw
    (unboundAddress : Socket → Result Z) (st st' : RTPProxy) :
  destroy st = Ok st' →
  incomingRTPPort unboundAddress st'
    = Throw (if incomingRTPSocket st is Some _ then ERR_SOCKET_DGRAM_NOT_RUNNING else TypeError)
  ∧ incomingRTCPPort unboundAddress st'
    = Throw (if incomingRTCPSocket st is Some _ then ERR_SOCKET_DGRAM_NOT_RUNNING else TypeError)
  ∧ outgoingLocalPort unboundAddress st'
    = Throw (if outgoingSocket st is Some _ then ERR_SOCKET_DGRAM_NOT_RUNNING else TypeError).
Proof.
  intros Hdestroy.
  apply destroy_handles in Hdestroy as (H1 & H2 & H3).
  unfold incomingRTPPort, incomingRTCPPort, outgoingLocalPort.
  rewrite H1, H2, H3.
  by destruct (incomingRTPSocket st), (incomingRTCPSocket st), (outgoingSocket st).
Qed.

Lemma port_accessors_after_destroy_throw_witness :
  incomingRTPPort refuse_unbound
    (log [EvClose 0; EvClose 1]
       (set_sockets (Some (stopped (demo_socket 0 10000)))
          (Some (stopped (demo_socket 1 10001))) None half_setup_proxy))
    = Throw ERR_SOCKET_DGRAM_NOT_RUNNING
  ∧ incomingRTCPPort refuse_unbound
      (log [EvClose 0; EvClose 1]
         (set_sockets (Some (stopped (demo_socket 0 10000)))
            (Some (stopped (demo_socket 1 10001))) None half_setup_proxy))
    = Throw ERR_SOCKET_DGRAM_NOT_RUNNING
  ∧ outgoingLocalPort refuse_unbound
      (log [EvClose 0; EvClose 1]
         (set_sockets (Some (stopped (demo_socket 0 10000)))
            (Some (stopped (demo_socket 1 10001))) None half_setup_proxy))
    = Throw TypeError.
Proof.
  apply (port_accessors_after_destroy_throw refuse_unbound half_setup_proxy).
  vm_compute. reflexivity.
Defined.

(** ** From the Sender Report to the Receiver Report *)

Lemma subpackets_single p : wellFormed p → subpackets p = [p].
Proof.
  intros Hwf.
  assert (Hall : Forall wellFormed [p]) by (constructor; [done|constructor]).
  apply subpackets_mjoin in Hall.
  simpl in Hall. by rewrite app_nil_r in Hall.
Qed.

(** X14.  The two RTCP paths compose into the SSRC translation the proxy is
    for.  On an operational instance that has learned nothing yet, a Sender
    Report of at least 8 bytes arriving alone on the forward path is
    forwarded, and a Receiver Report of at least 12 bytes that then comes
    back from the peer is forwarded with the SSRC the Sender Report carried
    in its bytes 4-7 written at its bytes 8-11, every other byte unchanged,
    whatever the accessor does with a value that is not a number. *)
Theorem reply_restores_sender_ssrc
    (writeNonNumber : nat → Buffer → Result Buffer)
    (sr rr : Buffer) (st : RTPProxy) :
  operational st → incomingSSRC st = None →
  Forall is_byte sr → wellFormed sr → qualifyingSR sr = true →
  wellFormed rr → qualifyingRR rr = true →
  ∃ x st1 out,
    word32_at sr 4 = Some x
    ∧ rtcpMessage sr st = Ok st1
    ∧ incomingSSRC st1 = Some x
    ∧ rtcpReply writeNonNumber rr st1 = Ok (delivered out st1)
    ∧ length out = length rr
    ∧ take 4 (drop 8 out) = Buf.be32 x
    ∧ Buf.readUInt32BE out 8 = Ok x
    ∧ (∀ i, ¬ (8 ≤ i < 12) → out !! i = rr !! i).
Proof.
  intros Hop Hnone Hbytes Hsr Hqsr Hrr Hqrr.
  assert (Hlen8 : 8 ≤ length sr).
  { unfold qualifyingSR in Hqsr. apply andb_true_iff in Hqsr as [_ H].
    by apply Nat.leb_le in H. }
  assert (Hlen12 : 12 ≤ length rr).
  { unfold qualifyingRR in Hqrr. apply andb_true_iff in Hqrr as [_ H].
    by apply Nat.leb_le in H. }
  destruct (word32_at_is_Some sr 4) as [x Hx]; [lia|].
  assert (Hux : uint32 x) by (by eapply word32_at_uint32).
  set (st0 := forwardLearn st [sr]).
  set (st1 := delivered (mjoin (forwardRewrite (outgoingSSRC st) <$> [sr])) st0).
  assert (Hin0 : incomingSSRC st0 = Some x).
  { unfold st0. rewrite forwardLearn_incomingSSRC, Hnone.
    by rewrite filter_cons_True, Hx by done. }
  assert (Hop1 : operational st1)
    by (by apply delivered_operational, forwardLearn_operational).
  assert (Hin1 : incomingSSRC st1 = Some x)
    by (unfold st1; by rewrite delivered_incomingSSRC).
  exists x, st1, (patch 8 (Buf.be32 x) rr).
  split; [done|].
  split.
  { rewrite rtcpMessage_spec, subpackets_single by (done || apply Hop).
    by apply sendOut_operational, forwardLearn_operational. }
  split; [done|].
  split.
  { rewrite (rtcpReply_learned _ _ _ x), subpackets_single by done.
    rewrite sendOut_operational by done.
    cbn [map mjoin list_join]. unfold replyRewrite. rewrite Hqrr.
    by rewrite app_nil_r. }
  split; [apply length_patch|].
  split; [apply (take_drop_patch (Buf.be32 x) 8); simpl; lia|].
  split; [apply readUInt32BE_patch; [done|lia]|].
  intros i Hi. apply lookup_patch_out. simpl. lia.
Qed.

Lemma reply_restores_sender_ssrc_witness :
  ∃ x st1 out,
    word32_at scenarioE_sr 4 = Some x
    ∧ rtcpMessage scenarioE_sr demo_proxy = Ok st1
    ∧ incomingSSRC st1 = Some x
    ∧ rtcpReply node_writeNonNumber sample_rr st1 = Ok (delivered out st1)
    ∧ length out = length sample_rr
    ∧ take 4 (drop 8 out) = Buf.be32 x
    ∧ Buf.readUInt32BE out 8 = Ok x
    ∧ (∀ i, ¬ (8 ≤ i < 12) → out !! i = sample_rr !! i).
Proof.
  apply (reply_restores_sender_ssrc node_writeNonNumber scenarioE_sr sample_rr
           demo_proxy).
  - exact demo_operational.
  - reflexivity.
  - unfold scenarioE_sr. repeat (constructor; [unfold is_byte; lia|]). constructor.
  - split; [simpl; lia|vm_compute; reflexivity].
  - reflexivity.
  - split; [simpl; lia|vm_compute; reflexivity].
  - reflexivity.
Defined.
